(** * Build persistence layer: [app/db/models/builds/queries.server.ts]

    A shallow embedding of the write path ([create], [updateByReplacing],
    [deleteById]) and the read path ([countByUserId], [buildsByUserId],
    [buildsByWeaponId], [augmentBuild], [dbAbilitiesToArrayOfArrays]) of the
    build model, together with the properties of the ability-matrix codec,
    the mode-set encoding, the weapon ordering and the transactional
    behaviour of the writes.

    Numbers are [Z], strings are [string], arrays are [list], the
    [Map] of alternate weapon ids is a [gmap Z Z].  Code that can throw
    returns a [Result]; code that talks to the database lives in the monad
    [M], which threads the database and a trace of what was asked of the
    storage engine. *)

From Stdlib Require Import ZArith Lia Ascii.
From stdpp Require Import base option list sorting gmap strings pretty.

Local Open Scope Z_scope.

(* ================================================================== *)
(** * Errors and results *)
(* ================================================================== *)

(** What a [throw] carries.  [InvariantFailed] is the error of
    [tiny-invariant]; the specification calls the one raised by the ability
    decoder a ShapeError.  [StorageFailure] is any failure of a statement of
    the storage engine, [SyntaxError] the failure of [JSON.parse]. *)
Inductive Error : Type :=
  | InvariantFailed (message : string)
  | StorageFailure (reason : string)
  | SyntaxError (input : string).

Inductive Result (A : Type) : Type :=
  | Returned (a : A)
  | Thrown (e : Error).
Arguments Returned {A} a.
Arguments Thrown {A} e.

Definition is_thrown {A} (r : Result A) : bool :=
  match r with Thrown _ => true | Returned _ => false end.

Definition result_bind {A B} (r : Result A) (k : A -> Result B) : Result B :=
  match r with
  | Returned a => k a
  | Thrown e => Thrown e
  end.

#[global] Instance Result_ret : MRet Result := fun A a => Returned a.
#[global] Instance Result_bind : MBind Result := fun A B k r => result_bind r k.
#[global] Instance Result_fmap : FMap Result :=
  fun A B f r => result_bind r (fun a => Returned (f a)).

(** [rows.map(f)] where [f] may throw: the first exception aborts the map. *)
Fixpoint map_throwing {A B} (f : A -> Result B) (l : list A) : Result (list B) :=
  match l with
  | [] => Returned []
  | x :: l' =>
      match f x with
      | Thrown e => Thrown e
      | Returned y =>
          match map_throwing f l' with
          | Thrown e => Thrown e
          | Returned ys => Returned (y :: ys)
          end
      end
  end.

(* ================================================================== *)
(** * Built-ins of the host language *)
(* ================================================================== *)

Module Js.

(** [Array.prototype.indexOf]: the index of the first element strictly
    equal to [x], or [-1]. *)
Fixpoint indexOf_from {A} `{EqDecision A} (i : Z) (l : list A) (x : A) : Z :=
  match l with
  | [] => -1
  | y :: l' => if decide (y = x) then i else indexOf_from (i + 1) l' x
  end.

Definition indexOf {A} `{EqDecision A} (l : list A) (x : A) : Z :=
  indexOf_from 0 l x.

(** [compareFn a b <= 0]: the comparator does not ask for [b] before [a]. *)
Definition precedes {A} (compareFn : A -> A -> Z) : relation A :=
  fun a b => compareFn a b <= 0.

#[global] Instance precedes_dec {A} (compareFn : A -> A -> Z) (a b : A) :
  Decision (precedes compareFn a b) := Z_le_dec (compareFn a b) 0.

(** [Array.prototype.sort(compareFn)].  The language asks for a stable
    sort and leaves the algorithm open; here each element, from the last
    to the first, is put in front of the first element that the
    comparator does not place before it, so that elements the comparator
    does not tell apart keep their order.  On a comparator that is a
    total preorder every stable algorithm returns this array. *)
Fixpoint insert {A} (compareFn : A -> A -> Z) (x : A) (l : list A) : list A :=
  match l with
  | [] => [x]
  | y :: l' =>
      if decide (precedes compareFn x y) then x :: y :: l'
      else y :: insert compareFn x l'
  end.

Definition sort {A} (compareFn : A -> A -> Z) (l : list A) : list A :=
  foldr (insert compareFn) [] l.

(** [Array.prototype.entries]: the elements paired with their indices. *)
Definition entries {A} (l : list A) : list (Z * A) :=
  imap (fun i x => (Z.of_nat i, x)) l.

(** [invariant(condition, message)] of [tiny-invariant]. *)
Definition invariant (condition : bool) (message : string) : Result unit :=
  if condition then Returned tt else Thrown (InvariantFailed message).

End Js.

(* ================================================================== *)
(** * Types of the data model ([~/db/types], [~/modules/in-game-lists]) *)
(* ================================================================== *)

Inductive GearType : Type := HEAD | CLOTHES | SHOES.

#[global] Instance GearType_eq_dec : EqDecision GearType.
Proof. solve_decision. Defined.

#[global] Instance GearType_inhabited : Inhabited GearType := populate HEAD.

(** Ability, mode and user-supplied text are strings at run time. *)
Definition Ability : Type := string.
Definition ModeShort : Type := string.

(** [Pick<BuildAbility, "ability" | "gearType" | "slotIndex">]. *)
Record BuildAbility : Type := mkBuildAbility {
  ability : Ability;
  gearType : GearType;
  slotIndex : Z
}.

#[global] Instance BuildAbility_eq_dec : EqDecision BuildAbility.
Proof. solve_decision. Defined.

(** [BuildAbilitiesTuple]: at run time an array of arrays.  The type
    promises three rows of four abilities; [is3x4] is that promise. *)
Definition BuildAbilitiesTuple : Type := list (list Ability).

Definition is3x4 (m : BuildAbilitiesTuple) : bool :=
  bool_decide (length m = 3%nat) && forallb (fun row => bool_decide (length row = 4%nat)) m.

(* ================================================================== *)
(** * Ability matrix codec *)
(* ================================================================== *)

Definition gearOrder : list GearType := [HEAD; CLOTHES; SHOES].

(** The comparator handed to [sort] in [dbAbilitiesToArrayOfArrays]. *)
Definition compareAbilities (a b : BuildAbility) : Z :=
  if decide (gearType a = gearType b) then slotIndex a - slotIndex b
  else Js.indexOf gearOrder (gearType a) - Js.indexOf gearOrder (gearType b).

(** [sorted[i]!]: past the invariant every index below 12 is defined; the
    default of [!!!] stands for the [undefined] that is never read. *)
Definition dbAbilitiesToArrayOfArrays (abilities : list BuildAbility)
  : Result BuildAbilitiesTuple :=
  let sorted := ability <$> Js.sort compareAbilities abilities in
  _ ← Js.invariant (bool_decide (length sorted = 12%nat)) "expected 12 abilities";
  mret [ [sorted !!! 0%nat; sorted !!! 1%nat; sorted !!! 2%nat; sorted !!! 3%nat];
         [sorted !!! 4%nat; sorted !!! 5%nat; sorted !!! 6%nat; sorted !!! 7%nat];
         [sorted !!! 8%nat; sorted !!! 9%nat; sorted !!! 10%nat; sorted !!! 11%nat] ].

(** The error the decoder raises; the specification's ShapeError. *)
Definition ShapeError : Error := InvariantFailed "expected 12 abilities".

(** The gear type chosen for a row index in [create]. *)
Definition gearTypeOfRow (rowI : Z) : GearType :=
  if decide (rowI = 0) then HEAD else if decide (rowI = 1) then CLOTHES else SHOES.

(** The cells the two nested loops of [create] walk through, in order. *)
Definition abilityRows (abilities : BuildAbilitiesTuple) : list BuildAbility :=
  '(rowI, row) ← Js.entries abilities;
  let gearType := gearTypeOfRow rowI in
  '(abilityI, ability) ← Js.entries row;
  [ {| ability := ability; gearType := gearType; slotIndex := abilityI |} ].


(* ================================================================== *)
(** * Rows, parameters and results of the prepared statements *)
(* ================================================================== *)

(** A row of the build table ([Build] of [~/db/types]). *)
Module Build.
Record t : Type := mk {
  id : Z;
  ownerId : Z;
  title : string;
  description : option string;
  modes : option string;
  headGearSplId : Z;
  clothesGearSplId : Z;
  shoesGearSplId : Z;
  private : Z;
  updatedAt : Z
}.
End Build.

(** [CreateArgs]. *)
Module CreateArgs.
Record t : Type := mk {
  ownerId : Z;
  title : string;
  description : option string;
  modes : option (list ModeShort);
  headGearSplId : Z;
  clothesGearSplId : Z;
  shoesGearSplId : Z;
  weaponSplIds : list Z;
  abilities : BuildAbilitiesTuple;
  private : Z
}.
End CreateArgs.

(** The named parameters bound by [createBuildStm.get]. *)
Module CreateBuildParams.
Record t : Type := mk {
  ownerId : Z;
  title : string;
  description : option string;
  modes : option string;
  headGearSplId : Z;
  clothesGearSplId : Z;
  shoesGearSplId : Z;
  private : Z
}.
End CreateBuildParams.

(** [BuildWeaponWithTop500Info]. *)
Record BuildWeaponWithTop500Info : Type := mkWeaponInfo {
  weaponSplId : Z;
  minRank : option Z;
  maxPower : option Z
}.

(** The scalar columns picked from [Build] in [BuildsByUserRow]. *)
Module BuildFields.
Record t : Type := mk {
  id : Z;
  title : string;
  description : option string;
  headGearSplId : Z;
  clothesGearSplId : Z;
  shoesGearSplId : Z;
  updatedAt : Z;
  private : Z
}.
End BuildFields.

(** The columns picked from [UserWithPlusTier] in [BuildsByWeaponIdRow]. *)
Module Owner.
Record t : Type := mk {
  discordId : string;
  discordName : string;
  discordDiscriminator : string;
  plusTier : option Z
}.
End Owner.

(** The argument of [augmentBuild]: [T & { modes; weapons; abilities }],
    with [T] the columns that are passed through untouched ([...row]). *)
Record Raw (T : Type) : Type := mkRaw {
  row : T;
  rawModes : option string;
  rawWeapons : string;
  rawAbilities : string
}.
Arguments mkRaw {T}.
Arguments row {T}.
Arguments rawModes {T}.
Arguments rawWeapons {T}.
Arguments rawAbilities {T}.

Definition BuildsByUserRow : Type := Raw BuildFields.t.
Definition BuildsByWeaponIdRow : Type := Raw (BuildFields.t * Owner.t).

(** What [augmentBuild] returns. *)
Module Augmented.
Record t (T : Type) : Type := mk {
  row : T;
  modes : option (list ModeShort);
  weapons : list BuildWeaponWithTop500Info;
  abilities : BuildAbilitiesTuple
}.
Arguments mk {T}.
Arguments row {T}.
Arguments modes {T}.
Arguments weapons {T}.
Arguments abilities {T}.
End Augmented.

(** The row of the count query; a missing or null [count] is [None]. *)
Record CountRow : Type := mkCountRow { count : option Z }.

(** One execution of a prepared statement, with the values bound to its
    named parameters. *)
Inductive Call : Type :=
  | CreateBuild (p : CreateBuildParams.t)
  | CreateBuildWeapon (buildId weaponSplId : Z)
  | CreateBuildAbility (buildId : Z) (gearType : GearType) (ability : Ability) (slotIndex : Z)
  | DeleteById (id : Z)
  | CountByUserId (userId : Z) (loggedInUserId : option Z)
  | BuildsByUserId (userId : Z) (loggedInUserId : option Z)
  | BuildsByWeaponId (weaponId altWeaponId limit : Z).

(* ================================================================== *)
(** * The collaborators: storage engine, catalog, JSON *)
(* ================================================================== *)

(** The seven prepared statements.  Their SQL text lives in [.sql] files
    next to the module; here a statement is any function of its parameters
    and the database that returns or throws.  A writing statement also
    yields the database it leaves behind (whatever it did before it threw). *)
Class Engine (DB : Type) : Type := {
  createBuildStm_get : CreateBuildParams.t -> DB -> Result Build.t * DB;
  createBuildWeaponStm_run : Z -> Z -> DB -> Result unit * DB;
  createBuildAbilityStm_run : Z -> GearType -> Ability -> Z -> DB -> Result unit * DB;
  deleteByIdStm_run : Z -> DB -> Result unit * DB;
  countByUserIdStm_get : Z -> option Z -> DB -> Result (option CountRow);
  buildsByUserIdStm_all : Z -> option Z -> DB -> Result (list BuildsByUserRow);
  buildsByWeaponIdStm_all : Z -> Z -> Z -> DB -> Result (list BuildsByWeaponIdRow)
}.

(** [modesShort] and [weaponIdToAltId] of [~/modules/in-game-lists]. *)
Class Catalog : Type := {
  modesShort : list ModeShort;
  weaponIdToAltId : gmap Z Z
}.

(** [JSON.stringify] on an array of strings and [JSON.parse] followed by
    the cast the caller applies to its result.  The cast is taken at its
    word: a column that holds a JSON document of another shape (the text
    [null] in the modes column, say, which [JSON.parse] turns into [null])
    is outside the model. *)
Class Json : Type := {
  JSON_stringify : list string -> string;
  JSON_parse_modes : string -> Result (list ModeShort);
  JSON_parse_weapons : string -> Result (list BuildWeaponWithTop500Info);
  JSON_parse_abilities : string -> Result (list BuildAbility)
}.

(* ================================================================== *)
(** * The monad of database code *)
(* ================================================================== *)

(** What the layer asks of the storage engine, in order: the boundaries of
    the units of work handed to the transaction wrapper and the statements
    executed, each with whether it returned ([true]) or threw ([false]). *)
Inductive Event : Type :=
  | TxBegin
  | TxCommit
  | TxRollback
  | Exec (c : Call) (ok : bool).

Record World (DB : Type) : Type := mkWorld {
  store : DB;
  trace : list Event
}.
Arguments mkWorld {DB}.
Arguments store {DB}.
Arguments trace {DB}.

Definition M (DB A : Type) : Type := World DB -> Result A * World DB.

Definition m_ret {DB A} (a : A) : M DB A := fun w => (Returned a, w).

(** Sequencing: an exception skips the rest, the world stays as it is. *)
Definition m_bind {DB A B} (m : M DB A) (k : A -> M DB B) : M DB B :=
  fun w =>
    match m w with
    | (Returned a, w') => k a w'
    | (Thrown e, w') => (Thrown e, w')
    end.

#[global] Instance M_ret {DB} : MRet (M DB) := fun A a => m_ret a.
#[global] Instance M_bind {DB} : MBind (M DB) := fun A B k m => m_bind m k.

Definition log {DB} (ev : Event) (w : World DB) : World DB :=
  {| store := store w; trace := trace w ++ [ev] |}.

(** Run a writing statement and record it. *)
Definition exec_write {DB A} (c : Call) (stm : DB -> Result A * DB) : M DB A :=
  fun w =>
    let '(r, db) := stm (store w) in
    (r, log (Exec c (negb (is_thrown r))) {| store := db; trace := trace w |}).

(** Run a reading statement and record it. *)
Definition exec_read {DB A} (c : Call) (stm : DB -> Result A) : M DB A :=
  fun w =>
    let r := stm (store w) in
    (r, log (Exec c (negb (is_thrown r))) w).

(** A computation that does not touch the database. *)
Definition lift {DB A} (r : Result A) : M DB A := fun w => (r, w).

(** [for (const x of l) body(x)]. *)
Fixpoint for_of {DB A} (l : list A) (body : A -> M DB unit) : M DB unit :=
  match l with
  | [] => mret tt
  | x :: l' => body x ;; for_of l' body
  end.

(** Modelled from the spec: [sql.transaction] of [~/db/sql], the wrapper of
    the storage engine, of which section 6 says that it "executes a unit of
    work atomically and re-raises any internal failure after rollback".
    The unit of work runs; when it returns its effects are kept, when it
    throws the database is put back to what it was when the unit began and
    the same error is thrown again. *)
Definition transaction {DB A} (unit_of_work : M DB A) : M DB A :=
  fun w =>
    match unit_of_work (log TxBegin w) with
    | (Returned a, w') => (Returned a, log TxCommit w')
    | (Thrown e, w') => (Thrown e, log TxRollback {| store := store w; trace := trace w' |})
    end.

(* ================================================================== *)
(** * The queries *)
(* ================================================================== *)

Section Queries.
Context {DB : Type} `{!Engine DB, !Catalog, !Json}.

(** The value bound to [modes] in [create]. *)
Definition create_modes (modes : option (list ModeShort)) : option string :=
  match modes with
  | Some modes =>
      if bool_decide (0 < Z.of_nat (length modes))
      then Some (JSON_stringify
                   (Js.sort (fun a b => Js.indexOf modesShort a - Js.indexOf modesShort b)
                      modes))
      else None
  | None => None
  end.

(** The parameters [create] binds to the build insert. *)
Definition createBuildParams (build : CreateArgs.t) : CreateBuildParams.t :=
  {| CreateBuildParams.ownerId := CreateArgs.ownerId build;
     CreateBuildParams.title := CreateArgs.title build;
     CreateBuildParams.description := CreateArgs.description build;
     CreateBuildParams.modes := create_modes (CreateArgs.modes build);
     CreateBuildParams.headGearSplId := CreateArgs.headGearSplId build;
     CreateBuildParams.clothesGearSplId := CreateArgs.clothesGearSplId build;
     CreateBuildParams.shoesGearSplId := CreateArgs.shoesGearSplId build;
     CreateBuildParams.private := CreateArgs.private build |}.

(** The body handed to [sql.transaction] in [create]. *)
Definition create_body (build : CreateArgs.t) : M DB unit :=
  let params := createBuildParams build in
  createdBuild ← exec_write (CreateBuild params) (createBuildStm_get params);
  for_of (CreateArgs.weaponSplIds build) (fun weaponSplId =>
    exec_write (CreateBuildWeapon (Build.id createdBuild) weaponSplId)
      (createBuildWeaponStm_run (Build.id createdBuild) weaponSplId));;
  for_of (Js.entries (CreateArgs.abilities build)) (fun '(rowI, row) =>
    let gearType := gearTypeOfRow rowI in
    for_of (Js.entries row) (fun '(abilityI, ability) =>
      exec_write (CreateBuildAbility (Build.id createdBuild) gearType ability abilityI)
        (createBuildAbilityStm_run (Build.id createdBuild) gearType ability abilityI))).

Definition create (build : CreateArgs.t) : M DB unit :=
  transaction (create_body build).

(** [updateByReplacing]; its argument is [CreateArgs & { id }]. *)
Definition updateByReplacing (id : Z) (build : CreateArgs.t) : M DB unit :=
  transaction (
    exec_write (DeleteById id) (deleteByIdStm_run id);;
    create build).

Definition countByUserId (userId : Z) (loggedInUserId : option Z) : M DB Z :=
  r ← exec_read (CountByUserId userId loggedInUserId)
        (countByUserIdStm_get userId loggedInUserId);
  mret (default 0 (r ≫= count)).

Definition augmentBuild {T} (r : Raw T) : Result (Augmented.t T) :=
  modes ← match rawModes r with
          | Some rawModes =>
              if bool_decide (rawModes = "") then mret None
              else Some <$> JSON_parse_modes rawModes
          | None => mret None
          end;
  parsed ← JSON_parse_weapons (rawWeapons r);
  let weapons := Js.sort (fun a b => weaponSplId a - weaponSplId b) parsed in
  abilities ← JSON_parse_abilities (rawAbilities r);
  abilities ← dbAbilitiesToArrayOfArrays abilities;
  mret {| Augmented.row := row r;
          Augmented.modes := modes;
          Augmented.weapons := weapons;
          Augmented.abilities := abilities |}.

Definition buildsByUserId (userId : Z) (loggedInUserId : option Z)
  : M DB (list (Augmented.t BuildFields.t)) :=
  rows ← exec_read (BuildsByUserId userId loggedInUserId)
           (buildsByUserIdStm_all userId loggedInUserId);
  lift (map_throwing augmentBuild rows).

Definition buildsByWeaponId (weaponId limit : Z)
  : M DB (list (Augmented.t (BuildFields.t * Owner.t))) :=
  let altWeaponId := default (-1) (weaponIdToAltId !! weaponId) in
  rows ← exec_read (BuildsByWeaponId weaponId altWeaponId limit)
           (buildsByWeaponIdStm_all weaponId altWeaponId limit);
  lift (map_throwing augmentBuild rows).

Definition deleteById (id : Z) : M DB unit :=
  exec_write (DeleteById id) (deleteByIdStm_run id).

End Queries.

(* ================================================================== *)
(** * A reader and printer for the JSON documents of the queries *)
(* ================================================================== *)

(** One instance of [Json], enough to run the queries on concrete rows:
    [null], integers, strings (with the escapes of the quote and the
    backslash), arrays and objects. *)
Module MiniJson.

#[warnings="-register-all"]
Inductive value : Type :=
  | Null
  | Number (n : Z)
  | Str (s : string)
  | Array (items : list value)
  | Object (members : list (string * value)).

Definition dquote : Ascii.ascii := Ascii.ascii_of_nat 34.
Definition backslash : Ascii.ascii := Ascii.ascii_of_nat 92.

Fixpoint escape (s : string) : string :=
  match s with
  | EmptyString => EmptyString
  | String c s' =>
      if bool_decide (c = dquote) || bool_decide (c = backslash)
      then String backslash (String c (escape s'))
      else String c (escape s')
  end.

Definition quote (s : string) : string :=
  String dquote (escape s +:+ String dquote EmptyString).

Fixpoint join (sep : string) (l : list string) : string :=
  match l with
  | [] => EmptyString
  | [x] => x
  | x :: l' => x +:+ sep +:+ join sep l'
  end.

Fixpoint print (v : value) : string :=
  match v with
  | Null => "null"
  | Number n => pretty n
  | Str s => quote s
  | Array items => "[" +:+ join "," (map print items) +:+ "]"
  | Object members =>
      "{" +:+ join "," (map (fun kv => quote (fst kv) +:+ ":" +:+ print (snd kv)) members)
          +:+ "}"
  end.

Definition is_space (c : Ascii.ascii) : bool :=
  bool_decide (c = " "%char) || bool_decide (c = Ascii.ascii_of_nat 10)
  || bool_decide (c = Ascii.ascii_of_nat 13) || bool_decide (c = Ascii.ascii_of_nat 9).

Fixpoint skip_space (s : string) : string :=
  match s with
  | String c s' => if is_space c then skip_space s' else s
  | EmptyString => s
  end.

Definition digit (c : Ascii.ascii) : option Z :=
  let n := Z.of_nat (Ascii.nat_of_ascii c) in
  if bool_decide (48 <= n <= 57) then Some (n - 48) else None.

Fixpoint read_digits (acc : Z) (s : string) : Z * string :=
  match s with
  | String c s' =>
      match digit c with
      | Some d => read_digits (10 * acc + d) s'
      | None => (acc, s)
      end
  | EmptyString => (acc, s)
  end.

Definition read_natural (s : string) : option (Z * string) :=
  match s with
  | String c _ => if digit c is Some _ then Some (read_digits 0 s) else None
  | EmptyString => None
  end.

Definition read_number (s : string) : option (Z * string) :=
  match s with
  | String "-"%char s' => '(n, rest) ← read_natural s'; Some (- n, rest)
  | _ => read_natural s
  end.

(** The characters of a string literal, after its opening quote. *)
Fixpoint read_string (s : string) : option (string * string) :=
  match s with
  | EmptyString => None
  | String c s' =>
      if bool_decide (c = dquote) then Some (EmptyString, s')
      else if bool_decide (c = backslash) then
        match s' with
        | String d s'' =>
            if bool_decide (d = dquote) || bool_decide (d = backslash)
            then '(str, rest) ← read_string s''; Some (String d str, rest)
            else None
        | EmptyString => None
        end
      else '(str, rest) ← read_string s'; Some (String c str, rest)
  end.

Fixpoint read_value (fuel : nat) (s : string) {struct fuel} : option (value * string) :=
  match fuel with
  | O => None
  | S fuel =>
      match skip_space s with
      | EmptyString => None
      | String c rest =>
          if bool_decide (c = "["%char) then
            match skip_space rest with
            | String "]"%char rest' => Some (Array [], rest')
            | _ => '(items, rest') ← read_items fuel rest; Some (Array items, rest')
            end
          else if bool_decide (c = "{"%char) then
            match skip_space rest with
            | String "}"%char rest' => Some (Object [], rest')
            | _ => '(members, rest') ← read_members fuel rest; Some (Object members, rest')
            end
          else if bool_decide (c = dquote) then
            '(str, rest') ← read_string rest; Some (Str str, rest')
          else if bool_decide (c = "n"%char) then
            match rest with
            | String "u"%char (String "l"%char (String "l"%char rest')) => Some (Null, rest')
            | _ => None
            end
          else '(n, rest') ← read_number (String c rest); Some (Number n, rest')
      end
  end
with read_items (fuel : nat) (s : string) {struct fuel} : option (list value * string) :=
  match fuel with
  | O => None
  | S fuel =>
      '(v, rest) ← read_value fuel s;
      match skip_space rest with
      | String ","%char rest' => '(vs, rest'') ← read_items fuel rest'; Some (v :: vs, rest'')
      | String "]"%char rest' => Some ([v], rest')
      | _ => None
      end
  end
with read_members (fuel : nat) (s : string) {struct fuel}
  : option (list (string * value) * string) :=
  match fuel with
  | O => None
  | S fuel =>
      match skip_space s with
      | String c rest =>
          if bool_decide (c = dquote) then
            '(key, rest1) ← read_string rest;
            match skip_space rest1 with
            | String ":"%char rest2 =>
                '(v, rest3) ← read_value fuel rest2;
                match skip_space rest3 with
                | String ","%char rest4 =>
                    '(kvs, rest5) ← read_members fuel rest4; Some ((key, v) :: kvs, rest5)
                | String "}"%char rest4 => Some ([(key, v)], rest4)
                | _ => None
                end
            | _ => None
            end
          else None
      | EmptyString => None
      end
  end.

Definition parse (s : string) : Result value :=
  match read_value (2 * String.length s + 2) s with
  | Some (v, rest) =>
      match skip_space rest with
      | EmptyString => Returned v
      | _ => Thrown (SyntaxError s)
      end
  | None => Thrown (SyntaxError s)
  end.

Fixpoint member (key : string) (members : list (string * value)) : option value :=
  match members with
  | [] => None
  | (k, v) :: members' => if bool_decide (k = key) then Some v else member key members'
  end.

Definition as_number (v : value) : option Z :=
  match v with Number n => Some n | _ => None end.

Definition as_string (v : value) : option string :=
  match v with Str s => Some s | _ => None end.

(** A member that may be absent or [null]. *)
Definition nullable_number (key : string) (members : list (string * value))
  : option (option Z) :=
  match member key members with
  | None | Some Null => Some None
  | Some (Number n) => Some (Some n)
  | Some _ => None
  end.

Definition as_weapon (v : value) : option BuildWeaponWithTop500Info :=
  match v with
  | Object members =>
      id ← member "weaponSplId" members;
      id ← as_number id;
      lo ← nullable_number "minRank" members;
      hi ← nullable_number "maxPower" members;
      Some {| weaponSplId := id; minRank := lo; maxPower := hi |}
  | _ => None
  end.

Definition gearType_of_string (s : string) : option GearType :=
  if bool_decide (s = "HEAD") then Some HEAD
  else if bool_decide (s = "CLOTHES") then Some CLOTHES
  else if bool_decide (s = "SHOES") then Some SHOES
  else None.

Definition string_of_gearType (g : GearType) : string :=
  match g with HEAD => "HEAD" | CLOTHES => "CLOTHES" | SHOES => "SHOES" end.

Definition as_ability (v : value) : option BuildAbility :=
  match v with
  | Object members =>
      a ← member "ability" members;
      a ← as_string a;
      g ← member "gearType" members;
      g ← as_string g;
      g ← gearType_of_string g;
      i ← member "slotIndex" members;
      i ← as_number i;
      Some {| ability := a; gearType := g; slotIndex := i |}
  | _ => None
  end.

Definition as_array {A} (f : value -> option A) (v : value) : option (list A) :=
  match v with
  | Array items => mapM f items
  | _ => None
  end.

Definition parse_as {A} (f : value -> option A) (s : string) : Result A :=
  v ← parse s;
  match f v with
  | Some a => Returned a
  | None => Thrown (SyntaxError s)
  end.

Definition of_weapon (w : BuildWeaponWithTop500Info) : value :=
  Object [ ("weaponSplId", Number (weaponSplId w));
           ("minRank", from_option Number Null (minRank w));
           ("maxPower", from_option Number Null (maxPower w)) ].

Definition of_ability (a : BuildAbility) : value :=
  Object [ ("ability", Str (ability a));
           ("gearType", Str (string_of_gearType (gearType a)));
           ("slotIndex", Number (slotIndex a)) ].

End MiniJson.

Definition miniJson : Json := {|
  JSON_stringify := fun l => MiniJson.print (MiniJson.Array (MiniJson.Str <$> l));
  JSON_parse_modes := MiniJson.parse_as (MiniJson.as_array MiniJson.as_string);
  JSON_parse_weapons := MiniJson.parse_as (MiniJson.as_array MiniJson.as_weapon);
  JSON_parse_abilities := MiniJson.parse_as (MiniJson.as_array MiniJson.as_ability)
|}.

(* ================================================================== *)
(** * An in-memory storage engine *)
(* ================================================================== *)

(** Modelled from the spec: the seven SQL statements, whose text is not
    part of the module.  Three tables (builds, weapon associations, ability
    cells) and the users they belong to; the build insert hands out the next
    id; deleting a build removes its dependent rows (the cascade the
    specification assumes); the count and the two listings see the public
    builds and, for their owner, the private ones; the listing by weapon
    returns the builds that carry the weapon under either identifier, at
    most [limit] of them.  [rejects] says which executions the engine
    refuses (a violated constraint, say): a refused statement throws and
    changes nothing. *)
Module Mem.

Record DB : Type := mk {
  builds : list Build.t;
  buildWeapons : list (Z * Z);
  buildAbilities : list (Z * BuildAbility);
  users : list (Z * Owner.t);
  lastId : Z;
  clock : Z
}.

Definition empty : DB :=
  {| builds := []; buildWeapons := []; buildAbilities := []; users := [];
     lastId := 0; clock := 0 |}.

Definition refused {A} (db : DB) : Result A * DB :=
  (Thrown (StorageFailure "constraint failed"), db).

(** Modelled from the spec: [createBuild.sql], the insert of the scalar
    fields that returns the new row with its generated id. *)
Definition createBuild (rejects : Call -> bool) (p : CreateBuildParams.t) (db : DB)
  : Result Build.t * DB :=
  if rejects (CreateBuild p) then refused db
  else
    let b := {| Build.id := lastId db + 1;
                Build.ownerId := CreateBuildParams.ownerId p;
                Build.title := CreateBuildParams.title p;
                Build.description := CreateBuildParams.description p;
                Build.modes := CreateBuildParams.modes p;
                Build.headGearSplId := CreateBuildParams.headGearSplId p;
                Build.clothesGearSplId := CreateBuildParams.clothesGearSplId p;
                Build.shoesGearSplId := CreateBuildParams.shoesGearSplId p;
                Build.private := CreateBuildParams.private p;
                Build.updatedAt := clock db |} in
    (Returned b,
     {| builds := builds db ++ [b]; buildWeapons := buildWeapons db;
        buildAbilities := buildAbilities db; users := users db;
        lastId := lastId db + 1; clock := clock db |}).

(** Modelled from the spec: [createBuildWeapon.sql], one association row. *)
Definition createBuildWeapon (rejects : Call -> bool) (buildId weaponSplId : Z) (db : DB)
  : Result unit * DB :=
  if rejects (CreateBuildWeapon buildId weaponSplId) then refused db
  else
    (Returned tt,
     {| builds := builds db; buildWeapons := buildWeapons db ++ [(buildId, weaponSplId)];
        buildAbilities := buildAbilities db; users := users db;
        lastId := lastId db; clock := clock db |}).

(** Modelled from the spec: [createBuildAbility.sql], one ability cell. *)
Definition createBuildAbility (rejects : Call -> bool)
    (buildId : Z) (gearType : GearType) (ability : Ability) (slotIndex : Z) (db : DB)
  : Result unit * DB :=
  if rejects (CreateBuildAbility buildId gearType ability slotIndex) then refused db
  else
    (Returned tt,
     {| builds := builds db; buildWeapons := buildWeapons db;
        buildAbilities :=
          buildAbilities db ++ [(buildId, mkBuildAbility ability gearType slotIndex)];
        users := users db; lastId := lastId db; clock := clock db |}).

(** Modelled from the spec: [deleteById.sql], with the cascade to the
    dependent rows. *)
Definition deleteBuild (rejects : Call -> bool) (id : Z) (db : DB) : Result unit * DB :=
  if rejects (DeleteById id) then refused db
  else
    (Returned tt,
     {| builds := filter (fun b => Build.id b ≠ id) (builds db);
        buildWeapons := filter (fun r => r.1 ≠ id) (buildWeapons db);
        buildAbilities := filter (fun r => r.1 ≠ id) (buildAbilities db);
        users := users db; lastId := lastId db; clock := clock db |}).

(** Modelled from the spec: the visibility policy of the count and of the
    listing by owner, public builds and the viewer's own. *)
Definition visible (userId : Z) (loggedInUserId : option Z) (b : Build.t) : bool :=
  bool_decide (Build.ownerId b = userId)
  && (bool_decide (Build.private b = 0) || bool_decide (loggedInUserId = Some userId)).

Definition weaponsOf (db : DB) (id : Z) : list Z :=
  snd <$> filter (fun r => r.1 = id) (buildWeapons db).

Definition abilitiesOf (db : DB) (id : Z) : list BuildAbility :=
  snd <$> filter (fun r => r.1 = id) (buildAbilities db).

Definition fieldsOf (b : Build.t) : BuildFields.t :=
  {| BuildFields.id := Build.id b;
     BuildFields.title := Build.title b;
     BuildFields.description := Build.description b;
     BuildFields.headGearSplId := Build.headGearSplId b;
     BuildFields.clothesGearSplId := Build.clothesGearSplId b;
     BuildFields.shoesGearSplId := Build.shoesGearSplId b;
     BuildFields.updatedAt := Build.updatedAt b;
     BuildFields.private := Build.private b |}.

(** The aggregated columns; the ranking statistics are not stored here
    and come out as [null]. *)
Definition rawOf {T} (db : DB) (b : Build.t) (passed : T) : Raw T :=
  {| row := passed;
     rawModes := Build.modes b;
     rawWeapons :=
       MiniJson.print (MiniJson.Array
         ((fun w => MiniJson.of_weapon (mkWeaponInfo w None None)) <$> weaponsOf db (Build.id b)));
     rawAbilities :=
       MiniJson.print (MiniJson.Array (MiniJson.of_ability <$> abilitiesOf db (Build.id b))) |}.

(** Modelled from the spec: [countByUserId.sql]. *)
Definition countByUserId (rejects : Call -> bool) (userId : Z) (loggedInUserId : option Z)
    (db : DB) : Result (option CountRow) :=
  if rejects (CountByUserId userId loggedInUserId)
  then Thrown (StorageFailure "unavailable")
  else Returned (Some {| count :=
         Some (Z.of_nat (length (filter (fun b => visible userId loggedInUserId b = true)
                                   (builds db)))) |}).

(** Modelled from the spec: [buildsByUserId.sql]. *)
Definition buildsByUserId (rejects : Call -> bool) (userId : Z) (loggedInUserId : option Z)
    (db : DB) : Result (list BuildsByUserRow) :=
  if rejects (BuildsByUserId userId loggedInUserId)
  then Thrown (StorageFailure "unavailable")
  else Returned ((fun b => rawOf db b (fieldsOf b))
                   <$> filter (fun b => visible userId loggedInUserId b = true) (builds db)).

(** Modelled from the spec: the condition of [buildsByWeaponId.sql], "builds
    filed under either identifier are found": the build carries a weapon
    whose identifier is one of the two bound to the query. *)
Definition carries (db : DB) (weaponId altWeaponId : Z) (b : Build.t) : bool :=
  existsb (fun w => bool_decide (w = weaponId) || bool_decide (w = altWeaponId))
    (weaponsOf db (Build.id b)).

Definition unknownOwner : Owner.t :=
  {| Owner.discordId := ""; Owner.discordName := "";
     Owner.discordDiscriminator := ""; Owner.plusTier := None |}.

Definition ownerOf (db : DB) (b : Build.t) : Owner.t :=
  default unknownOwner ((fun r => r.2.2) <$> list_find (fun u => u.1 = Build.ownerId b) (users db)).

(** Modelled from the spec: the public builds that satisfy the condition. *)
Definition matchingBuilds (db : DB) (weaponId altWeaponId : Z) : list Build.t :=
  filter (fun b => Build.private b = 0 ∧ carries db weaponId altWeaponId b = true) (builds db).

(** Modelled from the spec: [buildsByWeaponId.sql], at most [limit] rows. *)
Definition buildsByWeaponId (rejects : Call -> bool) (weaponId altWeaponId limit : Z)
    (db : DB) : Result (list BuildsByWeaponIdRow) :=
  if rejects (BuildsByWeaponId weaponId altWeaponId limit)
  then Thrown (StorageFailure "unavailable")
  else Returned ((fun b => rawOf db b (fieldsOf b, ownerOf db b))
                   <$> take (Z.to_nat limit) (matchingBuilds db weaponId altWeaponId)).

Definition engine (rejects : Call -> bool) : Engine DB := {|
  createBuildStm_get := createBuild rejects;
  createBuildWeaponStm_run := createBuildWeapon rejects;
  createBuildAbilityStm_run := createBuildAbility rejects;
  deleteByIdStm_run := deleteBuild rejects;
  countByUserIdStm_get := countByUserId rejects;
  buildsByUserIdStm_all := buildsByUserId rejects;
  buildsByWeaponIdStm_all := buildsByWeaponId rejects
|}.

(** An engine that refuses nothing. *)
Definition accepting : Call -> bool := fun _ => false.

End Mem.

(** A catalog to run the queries with: five modes in their global order
    and one weapon with an alternate identifier. *)
Definition exampleCatalog : Catalog := {|
  modesShort := ["TW"; "SZ"; "TC"; "RM"; "CB"];
  weaponIdToAltId := {[ 40 := 45 ]}
|}.

Definition exampleAbilities : BuildAbilitiesTuple :=
  [ ["ISM"; "ISS"; "IRU"; "RSU"];
    ["SSU"; "SCU"; "SS"; "SPU"];
    ["QR"; "QSJ"; "BRU"; "RES"] ].

Definition exampleBuild : CreateArgs.t := {|
  CreateArgs.ownerId := 7;
  CreateArgs.title := "Test";
  CreateArgs.description := None;
  CreateArgs.modes := Some ["TC"; "SZ"];
  CreateArgs.headGearSplId := 1;
  CreateArgs.clothesGearSplId := 2;
  CreateArgs.shoesGearSplId := 3;
  CreateArgs.weaponSplIds := [1200; 40];
  CreateArgs.abilities := exampleAbilities;
  CreateArgs.private := 0
|}.

Definition startWorld : World Mem.DB := {| store := Mem.empty; trace := [] |}.

(** An engine that refuses the third ability of the shoes. *)
Definition rejectShoes : Call -> bool :=
  fun c =>
    match c with
    | CreateBuildAbility _ SHOES _ 2 => true
    | _ => false
    end.

(** The world after [exampleBuild] has been created in the empty database. *)
Definition storedWorld : World Mem.DB :=
  (@create Mem.DB (Mem.engine Mem.accepting) exampleCatalog miniJson exampleBuild startWorld).2.

(** An engine that refuses the build insert, and one that refuses the
    delete. *)
Definition rejectBuild : Call -> bool :=
  fun c => match c with CreateBuild _ => true | _ => false end.

Definition rejectDelete : Call -> bool :=
  fun c => match c with DeleteById _ => true | _ => false end.

(** A build whose matrix is not three rows of four. *)
Definition raggedBuild : CreateArgs.t := {|
  CreateArgs.ownerId := 7;
  CreateArgs.title := "Ragged";
  CreateArgs.description := None;
  CreateArgs.modes := None;
  CreateArgs.headGearSplId := 1;
  CreateArgs.clothesGearSplId := 2;
  CreateArgs.shoesGearSplId := 3;
  CreateArgs.weaponSplIds := [40; 40; 10];
  CreateArgs.abilities := [ ["ISM"]; ["SSU"; "SCU"]; ["QR"]; ["RES"; "BRU"] ];
  CreateArgs.private := 0
|}.

(** The world after [raggedBuild] has been created in the empty database. *)
Definition raggedWorld : World Mem.DB :=
  (@create Mem.DB (Mem.engine Mem.accepting) exampleCatalog miniJson raggedBuild startWorld).2.

(** Twelve cells, four for each gear type, whose slot indices are not
    0..3, in reverse order. *)
Definition scatteredCells : list BuildAbility :=
  reverse ((fun a => mkBuildAbility (ability a) (gearType a) (10 * slotIndex a + 5))
             <$> abilityRows exampleAbilities).

(** A raw row without abilities. *)
Definition emptyRow : Raw unit :=
  {| row := tt; rawModes := None; rawWeapons := "[]"; rawAbilities := "[]" |}.

(** The raw row of the build of [storedWorld]. *)
Definition storedRow : option BuildsByUserRow :=
  (fun b => Mem.rawOf (store storedWorld) b (Mem.fieldsOf b))
    <$> head (Mem.builds (store storedWorld)).

(* ================================================================== *)
(** * Reading the trace *)
(* ================================================================== *)

(** What a computation appended to the trace of the world it started in. *)
Definition events_of {DB A} (m : M DB A) (w : World DB) : list Event :=
  drop (length (trace w)) (trace (m w).2).

Definition is_exec (ev : Event) : bool :=
  match ev with Exec _ _ => true | _ => false end.

(** A statement that threw. *)
Definition failed (ev : Event) : bool :=
  match ev with Exec _ false => true | _ => false end.

Definition some_failed (evs : list Event) : bool := existsb failed evs.

(** The number of units of work that are open after an event, given the
    number [d] open before it. *)
Definition step_open (d : nat) (ev : Event) : nat :=
  match ev with
  | TxBegin => S d
  | TxCommit | TxRollback => Nat.pred d
  | Exec _ _ => d
  end.

Definition open_after (d : nat) (evs : list Event) : nat := fold_left step_open evs d.

(** The largest number of units of work open at any point of a trace. *)
Fixpoint max_open (d : nat) (evs : list Event) : nat :=
  match evs with
  | [] => d
  | ev :: evs' => Nat.max d (max_open (step_open d ev) evs')
  end.

(** The ability cells handed to [createBuildAbilityStm.run], in order, each
    with the build id it was bound to. *)
Definition abilityCalls (evs : list Event) : list (Z * BuildAbility) :=
  omap (fun ev =>
          match ev with
          | Exec (CreateBuildAbility buildId gearType ability slotIndex) _ =>
              Some (buildId, mkBuildAbility ability gearType slotIndex)
          | _ => None
          end) evs.

(** The parameters bound to the listing by weapon, in order. *)
Definition weaponQueries (evs : list Event) : list (Z * Z * Z) :=
  omap (fun ev =>
          match ev with
          | Exec (BuildsByWeaponId weaponId altWeaponId limit) _ =>
              Some (weaponId, altWeaponId, limit)
          | _ => None
          end) evs.

(** The encoding as the specification words it: one cell for each row
    index [r] in 0..2 and column index [c] in 0..3, with the gear type at
    position [r] of the fixed order, slot index [c] and the ability at
    [matrix[r][c]]. *)
Definition encode_spec (matrix : BuildAbilitiesTuple) : list BuildAbility :=
  r ← [0; 1; 2]%nat;
  c ← [0; 1; 2; 3]%nat;
  [ {| ability := (matrix !!! r) !!! c;
       gearType := gearOrder !!! r;
       slotIndex := Z.of_nat c |} ].

(** The event that ends a unit of work whose result is [r]. *)
Definition closing {A} (r : Result A) : Event :=
  if is_thrown r then TxRollback else TxCommit.

(** [m] only executes statements, and throws exactly when one of them
    does. *)
Definition statements_only {DB A} (m : M DB A) : Prop :=
  forall w, exists evs,
    trace (m w).2 = trace w ++ evs
    /\ Forall (fun ev => is_exec ev = true) evs
    /\ is_thrown (m w).1 = some_failed evs.

(** When [m] returns it has appended exactly [evs]. *)
Definition returns_with {DB A} (m : M DB A) (evs : list Event) : Prop :=
  forall w, is_thrown (m w).1 = false -> trace (m w).2 = trace w ++ evs.

(** The key the decoder sorts on. *)
Definition cellKey (a : BuildAbility) : GearType * Z := (gearType a, slotIndex a).

(* ================================================================== *)
(** * Plans of statements *)
(* ================================================================== *)

(** The weapon identifiers handed to [createBuildWeaponStm.run], in order,
    each with the build id it was bound to. *)
Definition weaponCalls (evs : list Event) : list (Z * Z) :=
  omap (fun ev =>
          match ev with
          | Exec (CreateBuildWeapon buildId weaponSplId) _ => Some (buildId, weaponSplId)
          | _ => None
          end) evs.

(** The statement of an event, if it is one. *)
Definition callOf (ev : Event) : option Call :=
  match ev with
  | Exec c _ => Some c
  | _ => None
  end.

Definition succeeded (c : Call) : Event := Exec c true.

(** The ability insert for a cell. *)
Definition abilityInsert (id : Z) (a : BuildAbility) : Call :=
  CreateBuildAbility id (gearType a) (ability a) (slotIndex a).

(** The statements [create] sets out to execute when the build insert
    hands out [id]: the build insert, a weapon insert for each weapon
    identifier, an ability insert for each cell. *)
Definition createPlan `{!Catalog, !Json} (id : Z) (build : CreateArgs.t) : list Call :=
  CreateBuild (createBuildParams build)
  :: (CreateBuildWeapon id <$> CreateArgs.weaponSplIds build)
  ++ (abilityInsert id <$> abilityRows (CreateArgs.abilities build)).

(** [evs] is an execution of [plan] that ended in [r]: either [r] is a
    return and every statement of the plan was executed, in order, and
    returned; or [r] is a throw and the statements were executed in order
    up to one that threw, which is the last. *)
Definition follows {A} (plan : list Call) (r : Result A) (evs : list Event) : Prop :=
  (is_thrown r = false /\ evs = succeeded <$> plan)
  \/ (is_thrown r = true
      /\ exists before c rest,
          plan = before ++ c :: rest /\ evs = (succeeded <$> before) ++ [Exec c false]).

Definition runs_plan {DB A} (m : M DB A) (plan : list Call) : Prop :=
  forall w, exists evs, trace (m w).2 = trace w ++ evs /\ follows plan (m w).1 evs.

(** The result of [m] and the database it leaves do not depend on the
    trace of the world it starts in. *)
Definition ignores_trace {DB A} (m : M DB A) : Prop :=
  forall w1 w2, store w1 = store w2 ->
    (m w1).1 = (m w2).1 /\ store (m w1).2 = store (m w2).2.

(** The cells of one gear type. *)
Definition cellsOf (g : GearType) (cells : list BuildAbility) : list BuildAbility :=
  filter (fun a => gearType a = g) cells.


(** The order of the decoder, on keys. *)
Definition keyPrecedes (k1 k2 : GearType * Z) : Prop :=
  Js.precedes compareAbilities (mkBuildAbility "" k1.1 k1.2) (mkBuildAbility "" k2.1 k2.2).


(** The value bound to [modes] in each execution of the build insert, in
    order. *)
Definition modesBound (evs : list Event) : list (option string) :=
  omap (fun ev =>
          match ev with
          | Exec (CreateBuild p) _ => Some (CreateBuildParams.modes p)
          | _ => None
          end) evs.





(* ================================================================== *)
(** * Properties of the built-ins *)
(* ================================================================== *)

Section JsFacts.
Context {A : Type}.

Lemma insert_Permutation (compareFn : A -> A -> Z) (x : A) (l : list A) :
  Js.insert compareFn x l ≡ₚ x :: l.
Proof.
  induction l as [|y l IH]; simpl; [done|].
  case_decide; [done|]. by rewrite IH, perm_swap.
Qed.

Lemma sort_Permutation (compareFn : A -> A -> Z) (l : list A) :
  Js.sort compareFn l ≡ₚ l.
Proof.
  induction l as [|x l IH]; simpl; [done|].
  by rewrite insert_Permutation, IH.
Qed.

Lemma sort_length (compareFn : A -> A -> Z) (l : list A) :
  length (Js.sort compareFn l) = length l.
Proof. apply Permutation_length, sort_Permutation. Qed.

Lemma insert_Sorted (compareFn : A -> A -> Z) `{!Total (Js.precedes compareFn)}
    (x : A) (l : list A) :
  Sorted (Js.precedes compareFn) l -> Sorted (Js.precedes compareFn) (Js.insert compareFn x l).
Proof.
  induction 1 as [|y l Hl IH Hhd]; simpl.
  - by repeat constructor.
  - case_decide as Hxy.
    + by repeat constructor.
    + constructor; [done|].
      assert (Js.precedes compareFn y x) as Hyx by (by destruct (total _ x y)).
      destruct Hhd as [|z l' Hyz]; simpl; [by constructor|].
      case_decide; by constructor.
Qed.

Lemma sort_Sorted (compareFn : A -> A -> Z) `{!Total (Js.precedes compareFn)} (l : list A) :
  Sorted (Js.precedes compareFn) (Js.sort compareFn l).
Proof.
  induction l as [|x l IH]; simpl; [constructor|]. by apply insert_Sorted.
Qed.

(** The sort is stable: elements that the comparator does not tell apart
    come out in the order they came in. *)
Lemma sort_stable (compareFn : A -> A -> Z) (P : A -> Prop) `{!forall x, Decision (P x)}
    (l : list A) :
  (forall x y, P x -> P y -> Js.precedes compareFn x y) ->
  filter P (Js.sort compareFn l) = filter P l.
Proof.
  intros Htie.
  assert (forall x l', filter P (Js.insert compareFn x l') = filter P (x :: l')) as Hins.
  { intros x l'. induction l' as [|y l' IH]; simpl; [done|].
    case_decide as Hxy; [done|].
    rewrite (filter_cons _ y (Js.insert _ _ _)), IH, !filter_cons.
    destruct (decide (P x)) as [Hx|Hx], (decide (P y)) as [Hy|Hy]; try done.
    exfalso. by apply Hxy, Htie. }
  induction l as [|x l IH]; simpl; [done|].
  by rewrite Hins, !filter_cons, IH.
Qed.

(** A comparator that subtracts integer keys is a total preorder. *)
Lemma by_key_total (key : A -> Z) : Total (Js.precedes (fun a b => key a - key b)).
Proof. intros a b. unfold Js.precedes. lia. Qed.



Context `{EqDecision A}.

Lemma indexOf_from_spec (l : list A) (x : A) (i : Z) :
  ((x ∉ l) /\ Js.indexOf_from i l x = -1)
  \/ (i <= Js.indexOf_from i l x /\ l !! Z.to_nat (Js.indexOf_from i l x - i) = Some x).
Proof.
  revert i. induction l as [|y l IH]; intros i; simpl.
  - left. split; [apply not_elem_of_nil | done].
  - destruct (decide (y = x)) as [Hy|Hy].
    + right. subst. rewrite Z.sub_diag. split; [lia | done].
    + destruct (IH (i + 1)) as [[Hnot Heq] | [Hle Hlook]].
      * left. split; [|done]. rewrite elem_of_cons. intros [E|E]; [by subst|done].
      * right. split; [lia|].
        replace (Z.to_nat (Js.indexOf_from (i + 1) l x - i))
          with (S (Z.to_nat (Js.indexOf_from (i + 1) l x - (i + 1)))) by lia.
        done.
Qed.

(** [indexOf] is [-1] exactly on the values that are not in the array. *)
Lemma indexOf_absent (l : list A) (x : A) : Js.indexOf l x = -1 <-> x ∉ l.
Proof.
  unfold Js.indexOf. destruct (indexOf_from_spec l x 0) as [[Hnot Heq] | [Hle Hlook]].
  - done.
  - split; [lia|]. intros Hnot. exfalso. apply Hnot.
    by eapply list_elem_of_lookup_2.
Qed.


End JsFacts.

(* ================================================================== *)
(** * The ability matrix codec *)
(* ================================================================== *)

Lemma indexOf_gearOrder (g : GearType) :
  Js.indexOf gearOrder g = match g with HEAD => 0 | CLOTHES => 1 | SHOES => 2 end.
Proof. by destruct g. Qed.

Ltac unfold_compare :=
  unfold Js.precedes, compareAbilities in *; rewrite ?indexOf_gearOrder in *;
  simpl in *; repeat case_decide; try done; try lia.

#[global] Instance compareAbilities_total : Total (Js.precedes compareAbilities).
Proof. intros [? [] ?] [? [] ?]; unfold_compare. Qed.

#[global] Instance compareAbilities_trans : Transitive (Js.precedes compareAbilities).
Proof. intros [? [] ?] [? [] ?] [? [] ?]; unfold_compare. Qed.

(** Cells that the comparator cannot order have the same key. *)
Lemma compareAbilities_antisym (a b : BuildAbility) :
  Js.precedes compareAbilities a b -> Js.precedes compareAbilities b a ->
  cellKey a = cellKey b.
Proof.
  destruct a as [? [] ?], b as [? [] ?]; unfold cellKey; unfold_compare;
    intros; f_equal; lia.
Qed.

Lemma keyed_unique {A K} (key : A -> K) (l : list A) (x y : A) :
  NoDup (key <$> l) -> x ∈ l -> y ∈ l -> key x = key y -> x = y.
Proof.
  induction l as [|z l IH]; simpl; intros Hnd Hx Hy Hk.
  - by apply elem_of_nil in Hx.
  - apply NoDup_cons in Hnd as [Hz Hnd].
    apply elem_of_cons in Hx as [->|Hx]; apply elem_of_cons in Hy as [->|Hy]; auto.
    + exfalso. apply Hz. rewrite Hk. by apply list_elem_of_fmap_2.
    + exfalso. apply Hz. rewrite <- Hk. by apply list_elem_of_fmap_2.
Qed.

(** The decoder sorts any arrangement of cells with distinct keys into
    the one arrangement that is in key order. *)
Lemma sort_cells_unique (cells ordered : list BuildAbility) :
  NoDup (cellKey <$> ordered) ->
  Sorted (Js.precedes compareAbilities) ordered ->
  cells ≡ₚ ordered ->
  Js.sort compareAbilities cells = ordered.
Proof.
  intros Hnd Hsorted Hperm.
  apply (Sorted_unique_strong (Js.precedes compareAbilities)).
  - intros x y Hx Hy Hxy Hyx.
    apply (keyed_unique cellKey ordered); auto using compareAbilities_antisym.
    by rewrite sort_Permutation, Hperm in Hx.
  - apply sort_Sorted; exact _.
  - done.
  - by rewrite sort_Permutation.
Qed.

Lemma is3x4_inv (m : BuildAbilitiesTuple) :
  is3x4 m = true ->
  exists a0 a1 a2 a3 b0 b1 b2 b3 c0 c1 c2 c3,
    m = [[a0; a1; a2; a3]; [b0; b1; b2; b3]; [c0; c1; c2; c3]].
Proof.
  unfold is3x4. rewrite andb_true_iff, bool_decide_eq_true, forallb_forall.
  intros [Hlen Hrows].
  destruct m as [|r0 [|r1 [|r2 [|]]]]; try done.
  assert (forall r, In r [r0; r1; r2] -> length r = 4%nat) as Hr.
  { intros r Hin. apply Hrows in Hin. by apply bool_decide_eq_true in Hin. }
  pose proof (Hr r0 ltac:(simpl; auto)) as H0.
  pose proof (Hr r1 ltac:(simpl; auto)) as H1.
  pose proof (Hr r2 ltac:(simpl; auto)) as H2.
  destruct r0 as [|? [|? [|? [|? [|]]]]]; try done.
  destruct r1 as [|? [|? [|? [|? [|]]]]]; try done.
  destruct r2 as [|? [|? [|? [|? [|]]]]]; try done.
  by repeat eexists.
Qed.

(** The loops of [create] walk a 3x4 matrix the way the specification
    words the encoding. *)
Lemma abilityRows_encode_spec (m : BuildAbilitiesTuple) :
  is3x4 m = true -> abilityRows m = encode_spec m.
Proof.
  intros H. destruct (is3x4_inv m H) as (?&?&?&?&?&?&?&?&?&?&?&?&->). reflexivity.
Qed.




Lemma decode_length (abilities : list BuildAbility) :
  length (ability <$> Js.sort compareAbilities abilities) = length abilities.
Proof. by rewrite length_fmap, sort_length. Qed.



Lemma decode_throws (abilities : list BuildAbility) :
  length abilities ≠ 12%nat -> dbAbilitiesToArrayOfArrays abilities = Thrown ShapeError.
Proof.
  intros Hlen. unfold dbAbilitiesToArrayOfArrays.
  rewrite decode_length, bool_decide_eq_false_2 by done. reflexivity.
Qed.

Lemma decode_returns (abilities : list BuildAbility) :
  length abilities = 12%nat -> is_thrown (dbAbilitiesToArrayOfArrays abilities) = false.
Proof.
  intros Hlen. unfold dbAbilitiesToArrayOfArrays.
  rewrite decode_length, bool_decide_eq_true_2 by done. reflexivity.
Qed.

Lemma decode_returns_matrix (abilities : list BuildAbility) :
  length abilities = 12%nat ->
  exists m, dbAbilitiesToArrayOfArrays abilities = Returned m /\ is3x4 m = true.
Proof.
  intros Hlen. unfold dbAbilitiesToArrayOfArrays.
  pose proof (decode_length abilities) as Hsl. rewrite Hlen in Hsl.
  revert Hsl. generalize (ability <$> Js.sort compareAbilities abilities). intros sorted Hsl.
  rewrite Hsl. do 13 (destruct sorted as [|? sorted]; try done).
  eexists. split; reflexivity.
Qed.

(** C3: the decoder throws the ShapeError on every collection whose size
    is not 12, 11 and 13 among them, and on no collection of size 12. *)
Theorem decode_shape_invariant (abilities : list BuildAbility) :
  (length abilities ≠ 12%nat -> dbAbilitiesToArrayOfArrays abilities = Thrown ShapeError)
  /\ (length abilities = 11%nat \/ length abilities = 13%nat ->
      dbAbilitiesToArrayOfArrays abilities = Thrown ShapeError)
  /\ (length abilities = 12%nat -> is_thrown (dbAbilitiesToArrayOfArrays abilities) = false).
Proof.
  split; [apply decode_throws|]. split.
  - intros [H|H]; apply decode_throws; lia.
  - apply decode_returns.
Qed.

Lemma decode_shape_invariant_witness :
  dbAbilitiesToArrayOfArrays (tail (abilityRows exampleAbilities)) = Thrown ShapeError
  /\ dbAbilitiesToArrayOfArrays
       (mkBuildAbility "SS" HEAD 0 :: abilityRows exampleAbilities) = Thrown ShapeError
  /\ is_thrown (dbAbilitiesToArrayOfArrays (abilityRows exampleAbilities)) = false.
Proof.
  split; [|split].
  - apply (decode_shape_invariant (tail (abilityRows exampleAbilities))).
    left. reflexivity.
  - apply (decode_shape_invariant (mkBuildAbility "SS" HEAD 0 :: abilityRows exampleAbilities)).
    right. reflexivity.
  - apply (decode_shape_invariant (abilityRows exampleAbilities)). reflexivity.
Defined.

(** Twelve cells that all sit in the same slot of the same gear. *)
Lemma decode_accepts_repeated_key :
  let cells := replicate 12 (mkBuildAbility "SS" HEAD 0) in
  ~ NoDup (cellKey <$> cells)
  /\ dbAbilitiesToArrayOfArrays cells
     = Returned [ ["SS"; "SS"; "SS"; "SS"]; ["SS"; "SS"; "SS"; "SS"]; ["SS"; "SS"; "SS"; "SS"] ].
Proof.
  split; [|reflexivity].
  simpl. intros Hnd. apply NoDup_cons in Hnd as [Hnot _].
  apply Hnot. left.
Qed.

(** C10: the decoder throws exactly when the collection does not have 12
    elements; twelve cells always come back as three rows of four holding
    the abilities of the cells, whatever their keys are. *)
Theorem decode_throws_iff_not_12 (abilities : list BuildAbility) :
  (is_thrown (dbAbilitiesToArrayOfArrays abilities) = true <-> length abilities ≠ 12%nat)
  /\ (length abilities = 12%nat ->
      exists m, dbAbilitiesToArrayOfArrays abilities = Returned m
                /\ is3x4 m = true
                /\ concat m ≡ₚ ability <$> abilities).
Proof.
  split.
  - destruct (decide (length abilities = 12%nat)) as [Hlen|Hlen].
    + rewrite (decode_returns abilities Hlen). split; [done | by intros []].
    + by rewrite (decode_throws abilities Hlen).
  - intros Hlen. unfold dbAbilitiesToArrayOfArrays.
    pose proof (decode_length abilities) as Hsl. rewrite Hlen in Hsl.
    assert (ability <$> Js.sort compareAbilities abilities ≡ₚ ability <$> abilities) as Hperm
      by (by rewrite sort_Permutation).
    revert Hsl Hperm.
    generalize (ability <$> Js.sort compareAbilities abilities). intros sorted Hsl Hperm.
    rewrite Hsl.
    do 13 (destruct sorted as [|? sorted]; try done).
    eexists. split; [reflexivity|]. split; [reflexivity|]. exact Hperm.
Qed.

Lemma decode_throws_iff_not_12_witness :
  exists m, dbAbilitiesToArrayOfArrays (replicate 12 (mkBuildAbility "SS" HEAD 0)) = Returned m
            /\ is3x4 m = true
            /\ concat m ≡ₚ ability <$> replicate 12 (mkBuildAbility "SS" HEAD 0).
Proof.
  apply (decode_throws_iff_not_12 (replicate 12 (mkBuildAbility "SS" HEAD 0))).
  reflexivity.
Defined.

(* ================================================================== *)
(** * Running database code *)
(* ================================================================== *)

Section Running.
Context {DB : Type}.

Lemma bind_run {A B} (m : M DB A) (k : A -> M DB B) (w : World DB) :
  (m ≫= k) w =
    match m w with
    | (Returned a, w') => k a w'
    | (Thrown e, w') => (Thrown e, w')
    end.
Proof. reflexivity. Qed.

Lemma events_of_app {A} (m : M DB A) (w : World DB) (evs : list Event) :
  trace (m w).2 = trace w ++ evs -> events_of m w = evs.
Proof. unfold events_of. intros ->. by rewrite drop_app_length. Qed.

Lemma some_failed_app (evs1 evs2 : list Event) :
  some_failed (evs1 ++ evs2) = some_failed evs1 || some_failed evs2.
Proof. apply existsb_app. Qed.

(** ** Code that only executes statements *)

Lemma statements_only_ret {A} (a : A) : statements_only (mret a : M DB A).
Proof. intros w. exists []. simpl. by rewrite app_nil_r. Qed.

Lemma statements_only_exec_write {A} (c : Call) (stm : DB -> Result A * DB) :
  statements_only (exec_write c stm).
Proof.
  intros w. unfold exec_write. destruct (stm (store w)) as [r db].
  exists [Exec c (negb (is_thrown r))]. simpl.
  split; [done|]. split; [by repeat constructor|]. by destruct r.
Qed.

Lemma statements_only_exec_read {A} (c : Call) (stm : DB -> Result A) :
  statements_only (exec_read c stm).
Proof.
  intros w. unfold exec_read.
  exists [Exec c (negb (is_thrown (stm (store w))))]. simpl.
  split; [done|]. split; [by repeat constructor|]. by destruct (stm (store w)).
Qed.

Lemma statements_only_bind {A B} (m : M DB A) (k : A -> M DB B) :
  statements_only m -> (forall a, statements_only (k a)) -> statements_only (m ≫= k).
Proof.
  intros Hm Hk w. rewrite bind_run.
  destruct (Hm w) as (evs1 & Htr1 & Hex1 & Hth1).
  destruct (m w) as [[a|e] w1]; simpl in *.
  - destruct (Hk a w1) as (evs2 & Htr2 & Hex2 & Hth2).
    exists (evs1 ++ evs2). rewrite Htr2, Htr1, app_assoc.
    split; [done|]. split; [by apply Forall_app|].
    by rewrite some_failed_app, <- Hth1, Hth2.
  - by exists evs1.
Qed.

Lemma statements_only_for_of {A} (l : list A) (body : A -> M DB unit) :
  (forall x, statements_only (body x)) -> statements_only (for_of l body).
Proof.
  intros Hbody. induction l as [|x l IH]; simpl.
  - apply statements_only_ret.
  - apply statements_only_bind; auto.
Qed.

Lemma exec_write_run {A} (c : Call) (stm : DB -> Result A * DB) (w : World DB) :
  exec_write c stm w =
    ((stm (store w)).1,
     log (Exec c (negb (is_thrown (stm (store w)).1)))
       {| store := (stm (store w)).2; trace := trace w |}).
Proof. unfold exec_write. by destruct (stm (store w)). Qed.

Lemma exec_then_statements {A B} (c : Call) (stm : DB -> Result A * DB)
    (k : A -> M DB B) (w : World DB) :
  (forall a, statements_only (k a)) ->
  exists ok rest, trace ((exec_write c stm ≫= k) w).2 = trace w ++ Exec c ok :: rest.
Proof.
  intros Hk. rewrite bind_run, exec_write_run.
  destruct (stm (store w)) as [[a|e] db]; simpl.
  - match goal with |- context [k a ?w0] => destruct (Hk a w0) as (evs & Htr & _) end.
    exists true, evs. rewrite Htr. simpl. by rewrite <- app_assoc.
  - by exists false, [].
Qed.

(** ** What code appends when it returns *)

Lemma returns_with_exec_write {A} (c : Call) (stm : DB -> Result A * DB) :
  returns_with (exec_write c stm) [Exec c true].
Proof.
  intros w. unfold exec_write. destruct (stm (store w)) as [[a|e] db]; simpl; done.
Qed.

Lemma returns_with_for_of {A} (l : list A) (body : A -> M DB unit)
    (emitted : A -> list Event) :
  (forall x, returns_with (body x) (emitted x)) ->
  returns_with (for_of l body) (l ≫= emitted).
Proof.
  intros Hbody. induction l as [|x l IH]; intros w; simpl.
  - by rewrite app_nil_r.
  - rewrite bind_run.
    pose proof (Hbody x w) as Hx.
    destruct (body x w) as [[[]|e] w1]; simpl in *; [|done].
    intros Hret. rewrite (IH w1 Hret), Hx by done. by rewrite app_assoc.
Qed.

(** ** The transaction wrapper *)

Lemma transaction_run {A} (m : M DB A) (w : World DB) :
  (transaction m w).1 = (m (log TxBegin w)).1
  /\ trace (transaction m w).2
     = trace (m (log TxBegin w)).2 ++ [closing (m (log TxBegin w)).1]
  /\ store (transaction m w).2
     = if is_thrown (m (log TxBegin w)).1 then store w else store (m (log TxBegin w)).2.
Proof. unfold transaction. by destruct (m (log TxBegin w)) as [[a|e] w1]. Qed.

(** A unit of work that throws leaves the database as it found it. *)
Lemma transaction_atomic {A} (m : M DB A) (w : World DB) :
  is_thrown (transaction m w).1 = true -> store (transaction m w).2 = store w.
Proof.
  destruct (transaction_run m w) as (Hr & _ & Hs). rewrite Hr, Hs. by intros ->.
Qed.

Lemma transaction_statements {A} (m : M DB A) (w : World DB) :
  statements_only m ->
  exists evs,
    trace (transaction m w).2 = trace w ++ TxBegin :: evs ++ [closing (transaction m w).1]
    /\ Forall (fun ev => is_exec ev = true) evs
    /\ is_thrown (transaction m w).1 = some_failed evs.
Proof.
  intros Hm. destruct (transaction_run m w) as (Hr & Ht & _).
  destruct (Hm (log TxBegin w)) as (evs & Htr & Hex & Hth).
  exists evs. rewrite Hr, Ht, Htr. simpl. by rewrite <- !app_assoc.
Qed.

(** ** Counting open units of work *)

Lemma max_open_statements (d : nat) (evs rest : list Event) :
  Forall (fun ev => is_exec ev = true) evs ->
  max_open d (evs ++ rest) = max_open d rest.
Proof.
  induction 1 as [|[] evs Hev _ IH]; simpl in *; try done.
  rewrite IH. destruct rest; simpl; lia.
Qed.

Lemma open_after_statements (d : nat) (evs rest : list Event) :
  Forall (fun ev => is_exec ev = true) evs ->
  open_after d (evs ++ rest) = open_after d rest.
Proof. induction 1 as [|[] evs Hev _ IH]; simpl in *; done. Qed.

Lemma open_after_closing {A} (d : nat) (r : Result A) :
  step_open d (closing r) = Nat.pred d.
Proof. unfold closing. by destruct (is_thrown r). Qed.

Lemma some_failed_statements_closing {A} (evs : list Event) (r : Result A) :
  some_failed (evs ++ [closing r]) = some_failed evs.
Proof.
  rewrite some_failed_app. unfold closing. destruct (is_thrown r); simpl; by rewrite orb_false_r.
Qed.

End Running.

(* ================================================================== *)
(** * The write path *)
(* ================================================================== *)

Section Writes.
Context {DB : Type} `{!Engine DB, !Catalog, !Json}.

Lemma create_body_statements (build : CreateArgs.t) :
  statements_only (create_body build).
Proof.
  unfold create_body.
  apply statements_only_bind; [apply statements_only_exec_write|]. intros createdBuild.
  apply statements_only_bind.
  - apply statements_only_for_of. intros weaponSplId. apply statements_only_exec_write.
  - intros _. apply statements_only_for_of. intros [rowI row].
    apply statements_only_for_of. intros [abilityI ability].
    apply statements_only_exec_write.
Qed.

(** The build insert is the first statement of the body of [create]. *)
Lemma create_body_first (build : CreateArgs.t) (w : World DB) :
  exists ok rest,
    trace (create_body build w).2
    = trace w ++ Exec (CreateBuild (createBuildParams build)) ok :: rest.
Proof.
  unfold create_body. apply exec_then_statements. intros createdBuild.
  apply statements_only_bind.
  - apply statements_only_for_of. intros weaponSplId. apply statements_only_exec_write.
  - intros _. apply statements_only_for_of. intros [rowI row].
    apply statements_only_for_of. intros [abilityI ability].
    apply statements_only_exec_write.
Qed.

(** What [create] appends to the trace. *)
Lemma create_run (build : CreateArgs.t) (w : World DB) :
  exists evs,
    trace (create build w).2 = trace w ++ TxBegin :: evs ++ [closing (create build w).1]
    /\ Forall (fun ev => is_exec ev = true) evs
    /\ is_thrown (create build w).1 = some_failed evs.
Proof. apply transaction_statements, create_body_statements. Qed.

(** What [updateByReplacing] appends to the trace: when the delete
    throws, the unit of work ends there; otherwise the trace of [create]
    follows inside the unit of work that is already open. *)
Lemma updateByReplacing_run (id : Z) (build : CreateArgs.t) (w : World DB) :
  let r := (updateByReplacing id build w).1 in
  (is_thrown (deleteByIdStm_run id (store w)).1 = true
   /\ is_thrown r = true
   /\ trace (updateByReplacing id build w).2
      = trace w ++ [TxBegin; Exec (DeleteById id) false; TxRollback])
  \/ (is_thrown (deleteByIdStm_run id (store w)).1 = false
      /\ exists evs,
          trace (updateByReplacing id build w).2
          = trace w ++ TxBegin :: Exec (DeleteById id) true :: TxBegin
              :: evs ++ [closing r; closing r]
          /\ Forall (fun ev => is_exec ev = true) evs
          /\ is_thrown r = some_failed evs).
Proof.
  unfold updateByReplacing. simpl.
  destruct (transaction_run
              (exec_write (DeleteById id) (deleteByIdStm_run id);; create build) w)
    as (Hr & Ht & _).
  rewrite Hr, Ht, bind_run, exec_write_run. simpl.
  destruct (deleteByIdStm_run id (store w)) as [[[]|e] db]; simpl.
  - right. split; [done|].
    match goal with |- context [create build ?w1] => set (w' := w1) end.
    destruct (create_run build w') as (evs & Htr & Hex & Hth).
    exists evs. rewrite Htr. subst w'. simpl.
    split; [|by split].
    rewrite <- !app_assoc. simpl. by rewrite <- app_assoc.
  - left. by rewrite <- !app_assoc.
Qed.

(** C2: [create] and [updateByReplacing] throw exactly when one of their
    statements throws, and then the database is the one they started
    from. *)
Theorem writes_all_or_nothing (id : Z) (build : CreateArgs.t) (w : World DB) :
  (is_thrown (create build w).1 = some_failed (events_of (create build) w)
   /\ (is_thrown (create build w).1 = true -> store (create build w).2 = store w))
  /\ (is_thrown (updateByReplacing id build w).1
      = some_failed (events_of (updateByReplacing id build) w)
      /\ (is_thrown (updateByReplacing id build w).1 = true ->
          store (updateByReplacing id build w).2 = store w)).
Proof.
  split; split.
  - destruct (create_run build w) as (evs & Htr & _ & Hth).
    rewrite (events_of_app _ _ _ Htr). simpl.
    by rewrite some_failed_statements_closing.
  - apply transaction_atomic.
  - destruct (updateByReplacing_run id build w) as [(_ & Hth & Htr)|(_ & evs & Htr & _ & Hth)].
    + by rewrite (events_of_app _ _ _ Htr), Hth.
    + rewrite (events_of_app _ _ _ Htr). simpl.
      rewrite (some_failed_app evs). simpl.
      unfold closing. rewrite Hth. by destruct (some_failed evs).
  - apply transaction_atomic.
Qed.

(** X18: calls of the transaction wrapper nest.  [create] makes one
    call and [deleteById] none; [updateByReplacing] makes one and, once
    its delete has returned, calls [create] while its own call is still
    running, so that two calls are in progress, and never more than two;
    every call has ended when the operation ends. *)
Theorem units_of_work_nest_at_most_twice (id : Z) (build : CreateArgs.t) (w : World DB) :
  (max_open 0 (events_of (create build) w) = 1%nat
   /\ open_after 0 (events_of (create build) w) = 0%nat)
  /\ max_open 0 (events_of (deleteById id) w) = 0%nat
  /\ ((max_open 0 (events_of (updateByReplacing id build) w) <= 2)%nat
      /\ open_after 0 (events_of (updateByReplacing id build) w) = 0%nat
      /\ (is_thrown (deleteByIdStm_run id (store w)).1 = false ->
          max_open 0 (events_of (updateByReplacing id build) w) = 2%nat)).
Proof.
  split; [|split].
  - destruct (create_run build w) as (evs & Htr & Hex & _).
    rewrite (events_of_app _ _ _ Htr). simpl.
    rewrite max_open_statements, open_after_statements by done. simpl.
    by rewrite open_after_closing.
  - destruct (statements_only_exec_write (DeleteById id) (deleteByIdStm_run id) w)
      as (evs & Htr & Hex & _).
    unfold deleteById. rewrite (events_of_app _ _ _ Htr).
    rewrite <- (app_nil_r evs). by rewrite max_open_statements.
  - destruct (updateByReplacing_run id build w)
      as [(Hdel & _ & Htr)|(Hdel & evs & Htr & Hex & _)];
      rewrite (events_of_app _ _ _ Htr).
    + rewrite Hdel. simpl. split; [lia|]. split; done.
    + simpl. rewrite max_open_statements, open_after_statements by done. simpl.
      rewrite !open_after_closing. simpl. split; [lia|]. split; [done|]. intros _. lia.
Qed.

End Writes.

(* ================================================================== *)
(** * The ability cells written by [create] *)
(* ================================================================== *)

Section Encoding.
Context {DB : Type} `{!Engine DB, !Catalog, !Json}.

Lemma abilityCalls_weapons (id : Z) (weaponSplIds : list Z) :
  abilityCalls (weaponSplIds ≫= fun weaponSplId => [Exec (CreateBuildWeapon id weaponSplId) true])
  = [].
Proof. induction weaponSplIds as [|x l IH]; [done|]. exact IH. Qed.

(** The statements of a [create] that returns: the build insert, one
    weapon insert for each weapon identifier and one ability insert for
    each cell the two loops reach. *)
Lemma create_body_returns (build : CreateArgs.t) (w : World DB) :
  is_thrown (create_body build w).1 = false ->
  exists id : Z,
    trace (create_body build w).2
    = trace w
      ++ Exec (CreateBuild (createBuildParams build)) true
      :: (CreateArgs.weaponSplIds build
            ≫= fun weaponSplId => [Exec (CreateBuildWeapon id weaponSplId) true])
      ++ (Js.entries (CreateArgs.abilities build) ≫= fun '(rowI, row) =>
            Js.entries row ≫= fun '(abilityI, ability) =>
              [Exec (CreateBuildAbility id (gearTypeOfRow rowI) ability abilityI) true]).
Proof.
  unfold create_body. rewrite bind_run, exec_write_run.
  destruct (createBuildStm_get (createBuildParams build) (store w)) as [[createdBuild|e] db]; simpl; [|done].
  set (id := Build.id createdBuild).
  match goal with |- context [for_of _ _ ;; ?k] => set (abilityLoop := k) end.
  rewrite bind_run.
  match goal with |- context [for_of _ ?b ?w0] => set (weaponBody := b); set (w1 := w0) end.
  pose proof (returns_with_for_of (CreateArgs.weaponSplIds build) weaponBody
                (fun weaponSplId => [Exec (CreateBuildWeapon id weaponSplId) true])) as Hweapons.
  specialize (Hweapons (fun x => returns_with_exec_write _ _) w1).
  destruct (for_of (CreateArgs.weaponSplIds build) weaponBody w1) as [[[]|e] w2];
    simpl in *; [|done].
  intros Hret. exists id.
  subst abilityLoop.
  match goal with |- context [for_of _ ?b w2] => set (rowBody := b) in * end.
  pose proof (returns_with_for_of (Js.entries (CreateArgs.abilities build)) rowBody
                (fun '(rowI, row) =>
                   Js.entries row ≫= fun '(abilityI, ability) =>
                     [Exec (CreateBuildAbility id (gearTypeOfRow rowI) ability abilityI) true]))
    as Hrows.
  rewrite Hrows; [| |exact Hret].
  - rewrite Hweapons by done. subst w1. simpl. by rewrite <- !app_assoc.
  - intros [rowI row]. subst rowBody. simpl.
    apply (returns_with_for_of (Js.entries row) _
             (fun '(abilityI, ability) =>
                [Exec (CreateBuildAbility id (gearTypeOfRow rowI) ability abilityI) true])).
    intros [abilityI ability]. apply returns_with_exec_write.
Qed.

(** C7: a [create] that returns has handed to the ability insert exactly
    the twelve cells of the specification's encoding, in row and column
    order, all bound to one build id. *)
Theorem create_emits_twelve_cells (build : CreateArgs.t) (w : World DB) :
  is3x4 (CreateArgs.abilities build) = true ->
  is_thrown (create build w).1 = false ->
  exists id,
    abilityCalls (events_of (create build) w)
    = pair id <$> encode_spec (CreateArgs.abilities build)
    /\ length (abilityCalls (events_of (create build) w)) = 12%nat.
Proof.
  intros Hm Hret. unfold create in *.
  destruct (transaction_run (create_body build) w) as (Hr & Ht & _).
  rewrite Hr in Hret.
  destruct (create_body_returns build (log TxBegin w) Hret) as (id & Htr).
  exists id.
  rewrite (events_of_app (transaction (create_body build)) w
             (TxBegin :: (Exec (CreateBuild (createBuildParams build)) true
                :: (CreateArgs.weaponSplIds build
                      ≫= fun weaponSplId => [Exec (CreateBuildWeapon id weaponSplId) true])
                ++ (Js.entries (CreateArgs.abilities build) ≫= fun '(rowI, row) =>
                      Js.entries row ≫= fun '(abilityI, ability) =>
                        [Exec (CreateBuildAbility id (gearTypeOfRow rowI) ability abilityI) true]))
                ++ [closing (create_body build (log TxBegin w)).1])).
  2:{ rewrite Ht, Htr. repeat first [rewrite <- app_assoc | progress simpl]. reflexivity. }
  unfold abilityCalls at 1 2. simpl. rewrite !omap_app.
  fold abilityCalls. rewrite abilityCalls_weapons. simpl.
  unfold closing. rewrite Hret. simpl. rewrite app_nil_r.
  destruct (is3x4_inv _ Hm) as (?&?&?&?&?&?&?&?&?&?&?&?&->).
  split; reflexivity.
Qed.

End Encoding.

(* ================================================================== *)
(** * The mode-set encoding *)
(* ================================================================== *)

Section Modes.
Context `{!Catalog, !Json}.

(** The build insert is the first statement of [create] and carries the
    encoded modes. *)
Lemma create_binds_encoded_modes {DB} `{!Engine DB} (build : CreateArgs.t) (w : World DB) :
  exists ok rest,
    events_of (create build) w
    = TxBegin :: Exec (CreateBuild (createBuildParams build)) ok :: rest
    /\ CreateBuildParams.modes (createBuildParams build)
       = create_modes (CreateArgs.modes build).
Proof.
  destruct (transaction_run (create_body build) w) as (_ & Ht & _).
  destruct (create_body_first build (log TxBegin w)) as (ok & rest & Hfirst).
  exists ok, (rest ++ [closing (create_body build (log TxBegin w)).1]).
  split; [|done].
  apply events_of_app. unfold create. rewrite Ht, Hfirst.
  repeat first [rewrite <- app_assoc | progress simpl]. reflexivity.
Qed.



End Modes.

(* ================================================================== *)
(** * The read path *)
(* ================================================================== *)

Section Reads.
Context {DB : Type} `{!Engine DB, !Catalog, !Json}.

Lemma weapons_sorted (parsed : list BuildWeaponWithTop500Info) :
  Sorted Z.le (weaponSplId <$> Js.sort (fun a b => weaponSplId a - weaponSplId b) parsed).
Proof.
  apply (Sorted_fmap _ (Js.precedes (fun a b => weaponSplId a - weaponSplId b))).
  - intros a b. unfold Js.precedes. lia.
  - apply sort_Sorted, by_key_total.
Qed.

(** The weapons of an augmented build are the parsed weapons, sorted. *)
Lemma augmentBuild_weapons {T} (r : Raw T) (b : Augmented.t T) :
  augmentBuild r = Returned b ->
  exists parsed,
    JSON_parse_weapons (rawWeapons r) = Returned parsed
    /\ Augmented.weapons b = Js.sort (fun a b => weaponSplId a - weaponSplId b) parsed.
Proof.
  unfold augmentBuild.
  destruct (match rawModes r with
            | Some rawModes =>
                if bool_decide (rawModes = "") then mret None
                else Some <$> JSON_parse_modes rawModes
            | None => mret None
            end) as [modes|e]; [|done].
  destruct (JSON_parse_weapons (rawWeapons r)) as [parsed|e]; [|done].
  destruct (JSON_parse_abilities (rawAbilities r)) as [cells|e]; [|done].
  simpl. destruct (dbAbilitiesToArrayOfArrays cells) as [m|e]; [|done].
  simpl. intros [= <-]. by exists parsed.
Qed.

Lemma map_throwing_Forall {X Y} (f : X -> Result Y) (P : Y -> Prop) (l : list X) (ys : list Y) :
  (forall x y, f x = Returned y -> P y) ->
  map_throwing f l = Returned ys -> Forall P ys.
Proof.
  intros Hf. revert ys. induction l as [|x l IH]; simpl; intros ys.
  - intros [= <-]. constructor.
  - destruct (f x) as [y|e] eqn:Hx; [|done].
    destruct (map_throwing f l) as [ys'|e]; [|done].
    intros [= <-]. constructor; eauto.
Qed.

Lemma read_then_augment {T} (c : Call) (stm : DB -> Result (list (Raw T)))
    (P : Augmented.t T -> Prop) (w : World DB) (bs : list (Augmented.t T)) :
  (forall r b, augmentBuild r = Returned b -> P b) ->
  ((rows ← exec_read c stm; lift (map_throwing augmentBuild rows)) w).1 = Returned bs ->
  Forall P bs.
Proof.
  intros HP. rewrite bind_run. unfold exec_read, lift.
  destruct (stm (store w)) as [rows|e]; simpl; [|done].
  by apply map_throwing_Forall.
Qed.

(** C4: every build returned by the two listings has its weapons in
    ascending order of weapon identifier, and two raw rows that hold the
    same weapon entries in different orders give the same weapons. *)
Theorem listed_weapons_sorted
    (userId : Z) (loggedInUserId : option Z) (weaponId limit : Z) (w : World DB) :
  (forall bs, (buildsByUserId userId loggedInUserId w).1 = Returned bs ->
     Forall (fun b => Sorted Z.le (weaponSplId <$> Augmented.weapons b)) bs)
  /\ (forall bs, (buildsByWeaponId weaponId limit w).1 = Returned bs ->
        Forall (fun b => Sorted Z.le (weaponSplId <$> Augmented.weapons b)) bs)
  /\ (forall T (r1 r2 : Raw T) b1 b2 parsed1 parsed2,
        JSON_parse_weapons (rawWeapons r1) = Returned parsed1 ->
        JSON_parse_weapons (rawWeapons r2) = Returned parsed2 ->
        parsed1 ≡ₚ parsed2 ->
        augmentBuild r1 = Returned b1 ->
        augmentBuild r2 = Returned b2 ->
        weaponSplId <$> Augmented.weapons b1 = weaponSplId <$> Augmented.weapons b2).
Proof.
  assert (forall T (r : Raw T) b, augmentBuild r = Returned b ->
            Sorted Z.le (weaponSplId <$> Augmented.weapons b)) as Hsorted.
  { intros T r b Hb. destruct (augmentBuild_weapons r b Hb) as (parsed & _ & ->).
    apply weapons_sorted. }
  split; [|split].
  - intros bs Hbs. eapply read_then_augment; [|exact Hbs]. apply Hsorted.
  - intros bs Hbs. eapply read_then_augment; [|exact Hbs]. apply Hsorted.
  - intros T r1 r2 b1 b2 parsed1 parsed2 Hp1 Hp2 Hperm H1 H2.
    destruct (augmentBuild_weapons r1 b1 H1) as (p1 & Hq1 & ->).
    destruct (augmentBuild_weapons r2 b2 H2) as (p2 & Hq2 & ->).
    rewrite Hp1 in Hq1. rewrite Hp2 in Hq2. injection Hq1 as <-. injection Hq2 as <-.
    apply (Sorted_unique Z.le).
    + apply weapons_sorted.
    + apply weapons_sorted.
    + by rewrite !sort_Permutation, Hperm.
Qed.

(** C8: when the count statement answers, [countByUserId] returns an
    integer, and that integer is 0 when the answer has no row, a null
    count or the count 0. *)
Theorem countByUserId_returns_count
    (userId : Z) (loggedInUserId : option Z) (w : World DB) (r : option CountRow) :
  countByUserIdStm_get userId loggedInUserId (store w) = Returned r ->
  exists n : Z,
    (countByUserId userId loggedInUserId w).1 = Returned n
    /\ n = default 0 (r ≫= count)
    /\ (r = None \/ r = Some {| count := None |} \/ r = Some {| count := Some 0 |} -> n = 0).
Proof.
  intros Hr. unfold countByUserId. rewrite bind_run. unfold exec_read. rewrite Hr. simpl.
  eexists. split; [reflexivity|]. split; [reflexivity|].
  by intros [->|[->| ->]].
Qed.

(** The listing by weapon asks one query and binds three parameters to
    it, the third being the alternate identifier or [-1]. *)
Lemma buildsByWeaponId_query (weaponId limit : Z) (w : World DB) :
  weaponQueries (events_of (buildsByWeaponId weaponId limit) w)
  = [(weaponId, default (-1) (weaponIdToAltId !! weaponId), limit)].
Proof.
  unfold buildsByWeaponId.
  set (alt := default (-1) (weaponIdToAltId !! weaponId)).
  rewrite (events_of_app _ w [Exec (BuildsByWeaponId weaponId alt limit)
             (negb (is_thrown (buildsByWeaponIdStm_all weaponId alt limit (store w))))]);
    [done|].
  rewrite bind_run. unfold exec_read, lift.
  by destruct (buildsByWeaponIdStm_all weaponId alt limit (store w)).
Qed.

End Reads.

(* ================================================================== *)
(** * The sentinel of the listing by weapon *)
(* ================================================================== *)

Lemma existsb_ext_in {A} (f g : A -> bool) (l : list A) :
  (forall x, x ∈ l -> f x = g x) -> existsb f l = existsb g l.
Proof.
  induction l as [|x l IH]; simpl; intros Hfg; [done|].
  rewrite (Hfg x) by left. rewrite IH; [done|]. intros y Hy. apply Hfg. by right.
Qed.



(* ================================================================== *)
(** * The properties at work on the in-memory engine *)
(* ================================================================== *)

(** Without the transaction wrapper the rows written before the failure
    stay. *)
Lemma create_body_alone_leaves_rows :
  let r := @create_body Mem.DB (Mem.engine rejectShoes) exampleCatalog miniJson
             exampleBuild startWorld in
  is_thrown r.1 = true
  /\ length (Mem.builds (store r.2)) = 1%nat
  /\ length (Mem.buildAbilities (store r.2)) = 10%nat.
Proof. by vm_compute. Qed.

Lemma writes_all_or_nothing_witness :
  let create' := @create Mem.DB (Mem.engine rejectShoes) exampleCatalog miniJson in
  let update' := @updateByReplacing Mem.DB (Mem.engine rejectShoes) exampleCatalog miniJson in
  (is_thrown (create' exampleBuild storedWorld).1 = true
   /\ store (create' exampleBuild storedWorld).2 = store storedWorld)
  /\ (is_thrown (update' 1 exampleBuild storedWorld).1 = true
      /\ store (update' 1 exampleBuild storedWorld).2 = store storedWorld).
Proof.
  destruct (@writes_all_or_nothing Mem.DB (Mem.engine rejectShoes) exampleCatalog miniJson
              1 exampleBuild storedWorld) as [[_ Hc] [_ Hu]].
  split; (split; [reflexivity|]).
  - apply Hc. reflexivity.
  - apply Hu. reflexivity.
Defined.

Lemma units_of_work_nest_at_most_twice_witness :
  max_open 0 (events_of (@updateByReplacing Mem.DB (Mem.engine Mem.accepting) exampleCatalog
                           miniJson 1 exampleBuild) storedWorld) = 2%nat.
Proof.
  apply (@units_of_work_nest_at_most_twice Mem.DB (Mem.engine Mem.accepting) exampleCatalog
           miniJson 1 exampleBuild storedWorld).
  reflexivity.
Defined.

Lemma create_emits_twelve_cells_witness :
  exists id,
    abilityCalls (events_of (@create Mem.DB (Mem.engine Mem.accepting) exampleCatalog miniJson
                               exampleBuild) startWorld)
    = pair id <$> encode_spec exampleAbilities
    /\ length (abilityCalls
                 (events_of (@create Mem.DB (Mem.engine Mem.accepting) exampleCatalog miniJson
                               exampleBuild) startWorld)) = 12%nat.
Proof.
  apply (@create_emits_twelve_cells Mem.DB (Mem.engine Mem.accepting) exampleCatalog miniJson
           exampleBuild startWorld); reflexivity.
Defined.

(** A mode given twice is written twice: the encoding sorts and does not
    merge. *)
Lemma create_modes_keeps_repetitions :
  @create_modes exampleCatalog miniJson (Some ["SZ"; "TC"; "SZ"])
  ≠ @create_modes exampleCatalog miniJson (Some ["TC"; "SZ"]).
Proof. by vm_compute. Qed.

Lemma listed_weapons_sorted_witness :
  exists bs,
    (@buildsByUserId Mem.DB (Mem.engine Mem.accepting) miniJson 7 None storedWorld).1
    = Returned bs
    /\ (fun b => weaponSplId <$> Augmented.weapons b) <$> bs = [[40; 1200]]
    /\ Forall (fun b => Sorted Z.le (weaponSplId <$> Augmented.weapons b)) bs.
Proof.
  eexists. split; [by vm_compute|]. split; [by vm_compute|].
  apply (@listed_weapons_sorted Mem.DB (Mem.engine Mem.accepting) exampleCatalog miniJson
           7 None 1200 5 storedWorld).
  by vm_compute.
Defined.

Lemma countByUserId_returns_count_witness :
  exists n : Z,
    (@countByUserId Mem.DB (Mem.engine Mem.accepting) 7 None startWorld).1 = Returned n
    /\ n = 0.
Proof.
  destruct (@countByUserId_returns_count Mem.DB (Mem.engine Mem.accepting) 7 None startWorld
              (Some {| count := Some 0 |}) eq_refl) as (n & Hn & _ & Hzero).
  exists n. split; [exact Hn|]. apply Hzero. right. right. reflexivity.
Defined.

(** The scenario of the specification: after [create], the listing by
    owner returns one build with the abilities that were given and its
    weapons in ascending order. *)
Example create_then_list :
  exists b,
    (@buildsByUserId Mem.DB (Mem.engine Mem.accepting) miniJson 7 None storedWorld).1
    = Returned [b]
    /\ Augmented.abilities b = exampleAbilities
    /\ weaponSplId <$> Augmented.weapons b = [40; 1200]
    /\ Augmented.modes b = Some ["SZ"; "TC"].
Proof. eexists. split; [by vm_compute|]. by vm_compute. Qed.

(** A delete of a build that does not exist followed by the create: the
    replace is a plain create. *)
Example replace_missing_build :
  let r := @updateByReplacing Mem.DB (Mem.engine Mem.accepting) exampleCatalog miniJson
             99 exampleBuild startWorld in
  r.1 = Returned tt /\ store r.2 = store storedWorld.
Proof. by vm_compute. Qed.

(* ================================================================== *)
(** * The order of the statements of [create] *)
(* ================================================================== *)

Lemma fmap_bind {A B C} (f : B -> C) (g : A -> list B) (l : list A) :
  f <$> (l ≫= g) = l ≫= fun x => f <$> g x.
Proof.
  induction l as [|x l IH]; [done|].
  by rewrite !bind_cons, fmap_app, IH.
Qed.

Lemma bind_singleton_fmap {A B} (f : A -> B) (l : list A) :
  (l ≫= fun x => [f x]) = f <$> l.
Proof. induction l as [|x l IH]; [done|]. by rewrite bind_cons, fmap_cons, IH. Qed.

(** The calls of the two ability loops are the ability inserts of the
    cells of [abilityRows]. *)
Lemma ability_loops_plan (id : Z) (m : BuildAbilitiesTuple) :
  (Js.entries m ≫= fun '(rowI, row) =>
     Js.entries row ≫= fun '(abilityI, ability) =>
       [CreateBuildAbility id (gearTypeOfRow rowI) ability abilityI])
  = abilityInsert id <$> abilityRows m.
Proof.
  unfold abilityRows. rewrite fmap_bind.
  apply list_bind_ext; [|done]. intros [rowI row].
  rewrite fmap_bind. apply list_bind_ext; [|done]. by intros [abilityI ability].
Qed.

Section Plans.
Context {DB : Type}.

Lemma runs_plan_exec_write {A} (c : Call) (stm : DB -> Result A * DB) :
  runs_plan (exec_write c stm) [c].
Proof.
  intros w. rewrite exec_write_run. simpl.
  exists [Exec c (negb (is_thrown (stm (store w)).1))]. split; [done|].
  destruct (stm (store w)) as [[a|e] db]; simpl.
  - by left.
  - right. split; [done|]. by exists [], c, [].
Qed.

Lemma runs_plan_ret {A} (a : A) : runs_plan (mret a : M DB A) [].
Proof. intros w. exists []. simpl. rewrite app_nil_r. split; [done|]. by left. Qed.

Lemma runs_plan_bind {A B} (m : M DB A) (k : A -> M DB B) (plan1 plan2 : list Call) :
  runs_plan m plan1 -> (forall a, runs_plan (k a) plan2) ->
  runs_plan (m ≫= k) (plan1 ++ plan2).
Proof.
  intros Hm Hk w. rewrite bind_run.
  destruct (Hm w) as (evs1 & Htr1 & Hf1).
  destruct (m w) as [[a|e] w1]; simpl in *.
  - destruct Hf1 as [[_ ->]|[? _]]; [|done].
    destruct (Hk a w1) as (evs2 & Htr2 & Hf2).
    exists ((succeeded <$> plan1) ++ evs2). rewrite Htr2, Htr1, app_assoc. split; [done|].
    destruct Hf2 as [[Hr ->]|[Hr (before & c & rest & -> & ->)]].
    + left. by rewrite fmap_app.
    + right. split; [done|]. exists (plan1 ++ before), c, rest.
      by rewrite fmap_app, <- !app_assoc.
  - exists evs1. split; [done|].
    destruct Hf1 as [[? _]|[_ (before & c & rest & -> & ->)]]; [done|].
    right. split; [done|]. exists before, c, (rest ++ plan2). by rewrite <- app_assoc.
Qed.

Lemma runs_plan_for_of {A} (l : list A) (body : A -> M DB unit) (plan_of : A -> list Call) :
  (forall x, runs_plan (body x) (plan_of x)) ->
  runs_plan (for_of l body) (l ≫= plan_of).
Proof.
  intros Hbody. induction l as [|x l IH].
  - apply runs_plan_ret.
  - rewrite bind_cons.
    apply (runs_plan_bind (body x) (fun _ => for_of l body)); auto.
Qed.

(** ** Trace independence *)

Lemma ignores_trace_ret {A} (a : A) : ignores_trace (mret a : M DB A).
Proof. by intros w1 w2 Hs. Qed.

Lemma ignores_trace_exec_write {A} (c : Call) (stm : DB -> Result A * DB) :
  ignores_trace (exec_write c stm).
Proof. intros w1 w2 Hs. rewrite !exec_write_run. simpl. by rewrite Hs. Qed.

Lemma ignores_trace_bind {A B} (m : M DB A) (k : A -> M DB B) :
  ignores_trace m -> (forall a, ignores_trace (k a)) -> ignores_trace (m ≫= k).
Proof.
  intros Hm Hk w1 w2 Hs. rewrite !bind_run.
  destruct (Hm w1 w2 Hs) as [Hr Hst].
  destruct (m w1) as [r1 w1'], (m w2) as [r2 w2']. simpl in *. subst r2.
  destruct r1 as [a|e]; [by apply Hk | done].
Qed.

Lemma ignores_trace_for_of {A} (l : list A) (body : A -> M DB unit) :
  (forall x, ignores_trace (body x)) -> ignores_trace (for_of l body).
Proof.
  intros Hbody. induction l as [|x l IH]; simpl.
  - apply ignores_trace_ret.
  - apply ignores_trace_bind; auto.
Qed.

Lemma ignores_trace_transaction {A} (m : M DB A) :
  ignores_trace m -> ignores_trace (transaction m).
Proof.
  intros Hm w1 w2 Hs.
  destruct (transaction_run m w1) as (Hr1 & _ & Hs1).
  destruct (transaction_run m w2) as (Hr2 & _ & Hs2).
  destruct (Hm (log TxBegin w1) (log TxBegin w2) Hs) as [Hr Hst].
  rewrite Hr1, Hr2, Hs1, Hs2, Hr, Hst, Hs. done.
Qed.

End Plans.

Lemma weaponCalls_weapons (id : Z) (weaponSplIds : list Z) :
  weaponCalls (succeeded <$> (CreateBuildWeapon id <$> weaponSplIds)) = pair id <$> weaponSplIds.
Proof. induction weaponSplIds as [|x l IH]; [done|]. csimpl. f_equal. exact IH. Qed.

Lemma weaponCalls_abilities (id : Z) (cells : list BuildAbility) :
  weaponCalls (succeeded <$> (abilityInsert id <$> cells)) = [].
Proof. induction cells as [|x l IH]; [done|]. exact IH. Qed.

Lemma abilityCalls_abilities (id : Z) (cells : list BuildAbility) :
  abilityCalls (succeeded <$> (abilityInsert id <$> cells)) = pair id <$> cells.
Proof.
  induction cells as [|[a g i] l IH]; [done|]. csimpl. f_equal. exact IH.
Qed.

Lemma abilityCalls_weapon_inserts (id : Z) (weaponSplIds : list Z) :
  abilityCalls (succeeded <$> (CreateBuildWeapon id <$> weaponSplIds)) = [].
Proof. induction weaponSplIds as [|x l IH]; [done|]. exact IH. Qed.

(** The cells of one row: its abilities, in order, under one gear type,
    with the column as slot index. *)
Lemma row_cells (g : GearType) (row : list Ability) :
  let cells := Js.entries row ≫= fun '(abilityI, ability) =>
                 [ {| ability := ability; gearType := g; slotIndex := abilityI |} ] in
  ability <$> cells = row
  /\ gearType <$> cells = replicate (length row) g
  /\ slotIndex <$> cells = Z.of_nat <$> seq 0 (length row).
Proof.
  unfold Js.entries.
  assert (forall (h : nat -> Z),
    let cells := imap (fun i x => (h i, x)) row ≫= fun '(abilityI, ability) =>
                   [ {| ability := ability; gearType := g; slotIndex := abilityI |} ] in
    ability <$> cells = row
    /\ gearType <$> cells = replicate (length row) g
    /\ slotIndex <$> cells = h <$> seq 0 (length row)) as Hgen.
  { induction row as [|x row IH]; intros h; [done|].
    destruct (IH (h ∘ S)) as (Ha & Hg & Hs).
    simpl. split; [|split].
    - f_equal. exact Ha.
    - f_equal. exact Hg.
    - f_equal. rewrite <- fmap_S_seq, <- list_fmap_compose. exact Hs. }
  apply Hgen.
Qed.

(** [create] writes the abilities of the matrix in row-major order,
    whatever its shape. *)
Lemma abilityRows_abilities (m : BuildAbilitiesTuple) :
  ability <$> abilityRows m = concat m.
Proof.
  unfold abilityRows. unfold Js.entries at 1.
  assert (forall h : nat -> Z,
    ability <$> (imap (fun i x => (h i, x)) m ≫= fun '(rowI, row) =>
                   Js.entries row ≫= fun '(abilityI, ability) =>
                     [ {| ability := ability; gearType := gearTypeOfRow rowI;
                          slotIndex := abilityI |} ])
    = concat m) as Hgen.
  { induction m as [|row m IH]; intros h; [done|].
    rewrite imap_cons, bind_cons, fmap_app. simpl. f_equal.
    - apply (row_cells (gearTypeOfRow (h 0%nat)) row).
    - apply (IH (h ∘ S)). }
  apply Hgen.
Qed.

Lemma weaponCalls_app (evs1 evs2 : list Event) :
  weaponCalls (evs1 ++ evs2) = weaponCalls evs1 ++ weaponCalls evs2.
Proof. apply omap_app. Qed.

Lemma abilityCalls_app (evs1 evs2 : list Event) :
  abilityCalls (evs1 ++ evs2) = abilityCalls evs1 ++ abilityCalls evs2.
Proof. apply omap_app. Qed.

Lemma weaponCalls_plan (weaponSplIds : list Z) (cells : list BuildAbility)
    (id : Z) (p : CreateBuildParams.t) :
  weaponCalls (TxBegin :: (succeeded <$> CreateBuild p
                 :: (CreateBuildWeapon id <$> weaponSplIds) ++ (abilityInsert id <$> cells))
               ++ [TxCommit])
  = pair id <$> weaponSplIds.
Proof.
  change (weaponCalls
            ((succeeded <$> (CreateBuildWeapon id <$> weaponSplIds)
                            ++ (abilityInsert id <$> cells)) ++ [TxCommit])
          = pair id <$> weaponSplIds).
  rewrite fmap_app, !weaponCalls_app, weaponCalls_weapons, weaponCalls_abilities.
  change (weaponCalls [TxCommit]) with (@nil (Z * Z)). by rewrite !app_nil_r.
Qed.

Lemma abilityCalls_plan (weaponSplIds : list Z) (cells : list BuildAbility)
    (id : Z) (p : CreateBuildParams.t) :
  abilityCalls (TxBegin :: (succeeded <$> CreateBuild p
                  :: (CreateBuildWeapon id <$> weaponSplIds) ++ (abilityInsert id <$> cells))
                ++ [TxCommit])
  = pair id <$> cells.
Proof.
  change (abilityCalls
            ((succeeded <$> (CreateBuildWeapon id <$> weaponSplIds)
                            ++ (abilityInsert id <$> cells)) ++ [TxCommit])
          = pair id <$> cells).
  rewrite fmap_app, !abilityCalls_app, abilityCalls_weapon_inserts, abilityCalls_abilities.
  change (abilityCalls [TxCommit]) with (@nil (Z * BuildAbility)). by rewrite app_nil_r.
Qed.

Section CreateOrder.
Context {DB : Type} `{!Engine DB, !Catalog, !Json}.

Lemma create_rest_runs_plan (id : Z) (build : CreateArgs.t) :
  runs_plan
    (for_of (CreateArgs.weaponSplIds build) (fun weaponSplId =>
       exec_write (CreateBuildWeapon id weaponSplId) (createBuildWeaponStm_run id weaponSplId));;
     for_of (Js.entries (CreateArgs.abilities build)) (fun '(rowI, row) =>
       let gearType := gearTypeOfRow rowI in
       for_of (Js.entries row) (fun '(abilityI, ability) =>
         exec_write (CreateBuildAbility id gearType ability abilityI)
           (createBuildAbilityStm_run id gearType ability abilityI))))
    ((CreateBuildWeapon id <$> CreateArgs.weaponSplIds build)
     ++ (abilityInsert id <$> abilityRows (CreateArgs.abilities build))).
Proof.
  rewrite <- ability_loops_plan, <- bind_singleton_fmap.
  apply runs_plan_bind.
  - apply runs_plan_for_of. intros x. apply runs_plan_exec_write.
  - intros _.
    apply (runs_plan_for_of _ _ (fun '(rowI, row) =>
             Js.entries row ≫= fun '(abilityI, ability) =>
               [CreateBuildAbility id (gearTypeOfRow rowI) ability abilityI])).
    intros [rowI row].
    apply (runs_plan_for_of _ _ (fun '(abilityI, ability) =>
             [CreateBuildAbility id (gearTypeOfRow rowI) ability abilityI])).
    intros [abilityI ability]. apply runs_plan_exec_write.
Qed.

Lemma create_body_runs_plan (build : CreateArgs.t) (w : World DB) :
  exists id evs,
    trace (create_body build w).2 = trace w ++ evs
    /\ follows (createPlan id build) (create_body build w).1 evs.
Proof.
  unfold create_body. rewrite bind_run, exec_write_run.
  destruct (createBuildStm_get (createBuildParams build) (store w)) as [[b|e] db]; simpl.
  - match goal with |- context [(?k ?w1).2] =>
      destruct (create_rest_runs_plan (Build.id b) build w1) as (evs & Htr & Hf) end.
    exists (Build.id b), (Exec (CreateBuild (createBuildParams build)) true :: evs).
    split.
    { etrans; [exact Htr|]. simpl. by rewrite <- app_assoc. }
    destruct Hf as [[Hr ->]|[Hr (before & c & rest & Hplan & ->)]].
    + left. split; [exact Hr|]. done.
    + right. split; [exact Hr|].
      exists (CreateBuild (createBuildParams build) :: before), c, rest.
      unfold createPlan. by rewrite Hplan.
  - exists 0, [Exec (CreateBuild (createBuildParams build)) false]. split; [done|].
    right. split; [done|]. eexists [], _, _. split; [unfold createPlan; reflexivity|done].
Qed.

(** X1: [create] executes the statements of its plan in order (the build
    insert, the weapon inserts, the ability inserts), inside one unit of
    work: all of them when it returns, and up to the first statement that
    throws, and no further, when it throws. *)
Theorem create_follows_plan (build : CreateArgs.t) (w : World DB) :
  exists id evs,
    events_of (create build) w = TxBegin :: evs ++ [closing (create build w).1]
    /\ follows (createPlan id build) (create build w).1 evs.
Proof.
  destruct (transaction_run (create_body build) w) as (Hr & Ht & _).
  destruct (create_body_runs_plan build (log TxBegin w)) as (id & evs & Htr & Hf).
  exists id, evs. unfold create. rewrite Hr. split; [|exact Hf].
  apply events_of_app. rewrite Ht, Htr. simpl. by rewrite <- !app_assoc.
Qed.

Lemma create_returns_events (build : CreateArgs.t) (w : World DB) :
  is_thrown (create build w).1 = false ->
  exists id,
    events_of (create build) w
    = TxBegin :: (succeeded <$> createPlan id build) ++ [TxCommit].
Proof.
  intros Hret.
  destruct (transaction_run (create_body build) w) as (Hr & Ht & _).
  destruct (create_body_runs_plan build (log TxBegin w)) as (id & evs & Htr & Hf).
  unfold create in *. rewrite Hr in Hret.
  exists id. apply events_of_app. rewrite Ht, Htr. unfold closing. rewrite Hret. simpl.
  destruct Hf as [[_ ->]|[Hthrown _]]; [|congruence].
  by rewrite <- !app_assoc.
Qed.

(** A [create] that returns: the build insert returned a row, and the
    other statements were bound to the id of that row. *)
Lemma create_body_returns_row (build : CreateArgs.t) (w : World DB) :
  is_thrown (create_body build w).1 = false ->
  exists createdBuild db,
    createBuildStm_get (createBuildParams build) (store w) = (Returned createdBuild, db)
    /\ trace (create_body build w).2
       = trace w ++ (succeeded <$> createPlan (Build.id createdBuild) build).
Proof.
  unfold create_body. rewrite bind_run, exec_write_run.
  destruct (createBuildStm_get (createBuildParams build) (store w)) as [[b|e] db] eqn:Hget;
    simpl; [|done].
  match goal with |- context [(?k ?w1).2] =>
    destruct (create_rest_runs_plan (Build.id b) build w1) as (evs & Htr & Hf) end.
  intros Hret. exists b, db. split; [done|].
  destruct Hf as [[_ ->]|[Hthrown _]].
  - etrans; [exact Htr|]. simpl. by rewrite <- app_assoc.
  - assert (true = false) as Habs by (etrans; [symmetry; exact Hthrown | exact Hret]).
    discriminate Habs.
Qed.

Lemma create_returns_row (build : CreateArgs.t) (w : World DB) :
  is_thrown (create build w).1 = false ->
  exists createdBuild db,
    createBuildStm_get (createBuildParams build) (store w) = (Returned createdBuild, db)
    /\ events_of (create build) w
       = TxBegin :: (succeeded <$> createPlan (Build.id createdBuild) build) ++ [TxCommit].
Proof.
  intros Hret.
  destruct (transaction_run (create_body build) w) as (Hr & Ht & _).
  unfold create in *. rewrite Hr in Hret.
  destruct (create_body_returns_row build (log TxBegin w) Hret) as (b & db & Hget & Htr).
  exists b, db. split; [exact Hget|].
  apply events_of_app. rewrite Ht, Htr. unfold closing. rewrite Hret. simpl.
  by rewrite <- !app_assoc.
Qed.

(** X2: a [create] that returns has inserted one weapon row for each
    element of [weaponSplIds], repeated identifiers included, in the order
    of the input, each bound to the id of the row that the build insert
    returned. *)
Theorem create_writes_weapons_in_order (build : CreateArgs.t) (w : World DB) :
  is_thrown (create build w).1 = false ->
  exists createdBuild db,
    createBuildStm_get (createBuildParams build) (store w) = (Returned createdBuild, db)
    /\ weaponCalls (events_of (create build) w)
       = pair (Build.id createdBuild) <$> CreateArgs.weaponSplIds build.
Proof.
  intros Hret. destruct (create_returns_row build w Hret) as (b & db & Hget & ->).
  exists b, db. split; [exact Hget|]. unfold createPlan. apply weaponCalls_plan.
Qed.

(** X3: a [create] that returns has inserted one ability cell for each
    ability of the matrix, in row-major order, whatever the shape of the
    matrix: no row and no column is checked or left out. *)
Theorem create_writes_every_ability (build : CreateArgs.t) (w : World DB) :
  is_thrown (create build w).1 = false ->
  exists id,
    abilityCalls (events_of (create build) w)
    = pair id <$> abilityRows (CreateArgs.abilities build)
    /\ (ability ∘ snd) <$> abilityCalls (events_of (create build) w)
       = concat (CreateArgs.abilities build).
Proof.
  intros Hret. destruct (create_returns_events build w Hret) as (id & ->).
  exists id. unfold createPlan.
  rewrite abilityCalls_plan.
  split; [done|].
  rewrite <- list_fmap_compose. rewrite <- abilityRows_abilities.
  by apply list_fmap_ext.
Qed.

(** X4: when the build insert throws, [create] throws the same error
    without having tried a weapon or ability insert, and leaves the
    database as it was. *)
Theorem create_build_insert_fails (build : CreateArgs.t) (w : World DB) (e : Error) :
  (createBuildStm_get (createBuildParams build) (store w)).1 = Thrown e ->
  (create build w).1 = Thrown e
  /\ events_of (create build) w
     = [TxBegin; Exec (CreateBuild (createBuildParams build)) false; TxRollback]
  /\ store (create build w).2 = store w.
Proof.
  intros Hfail.
  destruct (transaction_run (create_body build) w) as (Hr & Ht & Hs).
  assert (create_body build (log TxBegin w)
          = (Thrown e,
             log (Exec (CreateBuild (createBuildParams build)) false)
               {| store := (createBuildStm_get (createBuildParams build) (store w)).2;
                  trace := trace w ++ [TxBegin] |})) as Hbody.
  { unfold create_body. rewrite bind_run, exec_write_run. simpl. by rewrite Hfail. }
  unfold create. rewrite Hr, Hs, Hbody. simpl. split; [done|]. split; [|done].
  apply events_of_app. rewrite Ht, Hbody. simpl. by rewrite <- !app_assoc.
Qed.

End CreateOrder.

(* ================================================================== *)
(** * [updateByReplacing] as a delete followed by a create *)
(* ================================================================== *)

Section Replace.
Context {DB : Type} `{!Engine DB, !Catalog, !Json}.

Lemma create_ignores_trace (build : CreateArgs.t) : ignores_trace (create build).
Proof.
  unfold create, create_body. apply ignores_trace_transaction.
  apply ignores_trace_bind; [apply ignores_trace_exec_write|]. intros createdBuild.
  apply ignores_trace_bind.
  - apply ignores_trace_for_of. intros weaponSplId. apply ignores_trace_exec_write.
  - intros _. apply ignores_trace_for_of. intros [rowI row].
    apply ignores_trace_for_of. intros [abilityI ability].
    apply ignores_trace_exec_write.
Qed.


(** What the body of [updateByReplacing] does once the delete has
    returned. *)
Lemma updateByReplacing_after_delete (id : Z) (build : CreateArgs.t) (w : World DB) (db : DB) :
  deleteByIdStm_run id (store w) = (Returned tt, db) ->
  let w1 := log (Exec (DeleteById id) true) {| store := db; trace := trace w ++ [TxBegin] |} in
  (updateByReplacing id build w).1 = (create build w1).1
  /\ trace (updateByReplacing id build w).2
     = trace (create build w1).2 ++ [closing (create build w1).1]
  /\ store (updateByReplacing id build w).2
     = if is_thrown (create build w1).1 then store w else store (create build w1).2.
Proof.
  intros Hdel. unfold updateByReplacing.
  destruct (transaction_run
              (exec_write (DeleteById id) (deleteByIdStm_run id);; create build) w)
    as (Hr & Ht & Hs).
  rewrite Hr, Ht, Hs, bind_run, exec_write_run. simpl. rewrite Hdel. simpl. done.
Qed.

(** What [updateByReplacing] does when the delete throws. *)
Lemma updateByReplacing_delete_throws (id : Z) (build : CreateArgs.t) (w : World DB)
    (e : Error) :
  (deleteByIdStm_run id (store w)).1 = Thrown e ->
  (updateByReplacing id build w).1 = Thrown e
  /\ store (updateByReplacing id build w).2 = store w.
Proof.
  intros Hdel. unfold updateByReplacing.
  destruct (transaction_run
              (exec_write (DeleteById id) (deleteByIdStm_run id);; create build) w)
    as (Hr & _ & Hs).
  rewrite Hr, Hs, bind_run, exec_write_run. simpl. by rewrite Hdel.
Qed.

(** X5: [updateByReplacing] is [deleteById] followed by [create]: it
    throws the error of the delete if the delete throws, and otherwise
    returns or throws as the create does on the database the delete left;
    when both return, the database is the one this create leaves, and when
    either throws, it is the one before the call. *)
Theorem updateByReplacing_composes (id : Z) (build : CreateArgs.t) (w : World DB) :
  let d := deleteById id w in
  let c := create build d.2 in
  (updateByReplacing id build w).1 = (if is_thrown d.1 then d.1 else c.1)
  /\ store (updateByReplacing id build w).2
     = (if is_thrown d.1 || is_thrown c.1 then store w else store c.2).
Proof.
  unfold deleteById. rewrite exec_write_run. simpl.
  destruct (deleteByIdStm_run id (store w)) as [[[]|e] db] eqn:Hdel; simpl.
  - destruct (updateByReplacing_after_delete id build w db Hdel) as (Hr & _ & Hs).
    match goal with |- context [create build ?w2] =>
      match type of Hr with context [create build ?w1] =>
        destruct (create_ignores_trace build w1 w2 eq_refl) as [Hres Hst] end end.
    by rewrite Hr, Hs, Hres, Hst.
  - apply updateByReplacing_delete_throws. by rewrite Hdel.
Qed.

(** X6: when the delete throws, [updateByReplacing] throws the same
    error and the delete is the only statement it has executed: no insert
    is tried, and the database is as it was. *)
Theorem updateByReplacing_delete_fails (id : Z) (build : CreateArgs.t) (w : World DB)
    (e : Error) :
  (deleteByIdStm_run id (store w)).1 = Thrown e ->
  (updateByReplacing id build w).1 = Thrown e
  /\ events_of (updateByReplacing id build) w
     = [TxBegin; Exec (DeleteById id) false; TxRollback]
  /\ store (updateByReplacing id build w).2 = store w.
Proof.
  intros Hdel.
  destruct (updateByReplacing_delete_throws id build w e Hdel) as [Hr Hs].
  split; [exact Hr|]. split; [|exact Hs].
  destruct (updateByReplacing_run id build w) as [(_ & _ & Htr)|(Hok & _)].
  - by apply events_of_app.
  - rewrite Hdel in Hok. done.
Qed.


End Replace.

(* ================================================================== *)
(** * More on the decoder *)
(* ================================================================== *)

Section SortFilter.
Context {A : Type} (compareFn : A -> A -> Z).
Context `{!Total (Js.precedes compareFn), !Transitive (Js.precedes compareFn)}.
Context (P : A -> Prop) `{!forall x, Decision (P x)}.

Lemma insert_head (x : A) (l : list A) :
  (forall y, y ∈ l -> Js.precedes compareFn x y) -> Js.insert compareFn x l = x :: l.
Proof.
  destruct l as [|y l]; [done|]. intros Hall. simpl.
  case_decide as Hxy; [done|]. exfalso. apply Hxy, Hall. left.
Qed.

Lemma filter_insert (x : A) (l : list A) :
  StronglySorted (Js.precedes compareFn) l ->
  filter P (Js.insert compareFn x l)
  = if decide (P x) then Js.insert compareFn x (filter P l) else filter P l.
Proof.
  induction 1 as [|y l Hl IH Hall].
  - change (Js.insert compareFn x []) with [x].
    rewrite filter_cons, filter_nil. by destruct (decide (P x)).
  - change (Js.insert compareFn x (y :: l))
      with (if decide (Js.precedes compareFn x y) then x :: y :: l
            else y :: Js.insert compareFn x l).
    destruct (decide (Js.precedes compareFn x y)) as [Hxy|Hxy].
    + rewrite (filter_cons _ x). destruct (decide (P x)) as [Hx|Hx]; [|done].
      symmetry. apply insert_head. intros z Hz.
      apply list_elem_of_filter in Hz as [_ Hz].
      apply elem_of_cons in Hz as [->|Hz]; [done|].
      rewrite Forall_forall in Hall. etrans; [exact Hxy|]. by apply Hall.
    + rewrite (filter_cons _ y), IH, (filter_cons _ y l).
      destruct (decide (P y)) as [Hy|Hy], (decide (P x)) as [Hx|Hx]; try done.
      change (Js.insert compareFn x (y :: filter P l))
        with (if decide (Js.precedes compareFn x y) then x :: y :: filter P l
              else y :: Js.insert compareFn x (filter P l)).
      by rewrite decide_False.
Qed.

(** Sorting and keeping the elements of one kind commute. *)
Lemma filter_sort (l : list A) :
  filter P (Js.sort compareFn l) = Js.sort compareFn (filter P l).
Proof.
  induction l as [|x l IH]; [done|].
  change (Js.sort compareFn (x :: l)) with (Js.insert compareFn x (Js.sort compareFn l)).
  rewrite filter_insert.
  - rewrite filter_cons. destruct (decide (P x)); [|done].
    change (Js.sort compareFn (x :: filter P l))
      with (Js.insert compareFn x (Js.sort compareFn (filter P l))).
    by rewrite IH.
  - apply Sorted_StronglySorted; [done|]. by apply sort_Sorted.
Qed.

End SortFilter.

Lemma filter_none {A} (P : A -> Prop) `{!forall x, Decision (P x)} (l : list A) :
  Forall (fun x => ~ P x) l -> filter P l = [].
Proof.
  induction 1 as [|x l Hx _ IH]; [done|].
  by rewrite filter_cons, decide_False.
Qed.

(** In a sorted list of cells no cell of an earlier gear type comes after
    a cell of a later one. *)
Lemma no_earlier_gear (x : BuildAbility) (l : list BuildAbility) (g : GearType) :
  Forall (Js.precedes compareAbilities x) l ->
  Js.indexOf gearOrder g < Js.indexOf gearOrder (gearType x) ->
  cellsOf g l = [].
Proof.
  intros Hall Hlt. apply filter_none.
  eapply Forall_impl; [exact Hall|]. intros y Hxy Hy. subst g.
  destruct x as [? [] ?], y as [? [] ?]; unfold_compare.
Qed.

(** A sorted list of cells is its HEAD cells, then its CLOTHES cells, then
    its SHOES cells. *)
Lemma sorted_by_gear (l : list BuildAbility) :
  StronglySorted (Js.precedes compareAbilities) l ->
  l = cellsOf HEAD l ++ cellsOf CLOTHES l ++ cellsOf SHOES l.
Proof.
  induction 1 as [|x l Hl IH Hall]; [done|].
  unfold cellsOf in *. rewrite !filter_cons.
  destruct x as [a [] i]; simpl.
  - by rewrite <- IH.
  - pose proof (no_earlier_gear _ l HEAD Hall ltac:(by vm_compute)) as Hh.
    unfold cellsOf in Hh. rewrite Hh in *. simpl in *. by rewrite <- IH.
  - pose proof (no_earlier_gear _ l HEAD Hall ltac:(by vm_compute)) as Hh.
    pose proof (no_earlier_gear _ l CLOTHES Hall ltac:(by vm_compute)) as Hc.
    unfold cellsOf in Hh, Hc. rewrite Hh, Hc in *. simpl in *. by rewrite <- IH.
Qed.

Lemma sort_cells_by_gear (cells : list BuildAbility) :
  Js.sort compareAbilities cells
  = Js.sort compareAbilities (cellsOf HEAD cells)
    ++ Js.sort compareAbilities (cellsOf CLOTHES cells)
    ++ Js.sort compareAbilities (cellsOf SHOES cells).
Proof.
  unfold cellsOf.
  rewrite <- !(filter_sort compareAbilities).
  apply sorted_by_gear, Sorted_StronglySorted; [exact _|]. apply sort_Sorted; exact _.
Qed.

Lemma sorted_gear_slots (g : GearType) (cells : list BuildAbility) :
  Sorted Z.le (slotIndex <$> Js.sort compareAbilities (cellsOf g cells)).
Proof.
  assert (Forall (fun a => gearType a = g) (Js.sort compareAbilities (cellsOf g cells))) as Hg.
  { apply Forall_forall. intros a Ha. rewrite sort_Permutation in Ha.
    unfold cellsOf in Ha. by apply list_elem_of_filter in Ha as [? _]. }
  pose proof (sort_Sorted compareAbilities (cellsOf g cells)) as Hs.
  apply Sorted_StronglySorted in Hs; [|exact _].
  apply StronglySorted_Sorted.
  induction Hs as [|x l Hl IH Hall]; [constructor|].
  apply Forall_cons in Hg as [Hx Hg]. csimpl. constructor; [by apply IH|].
  apply Forall_fmap. rewrite Forall_forall in Hall, Hg. apply Forall_forall.
  intros y Hy. specialize (Hall y Hy). specialize (Hg y Hy). simpl.
  unfold Js.precedes, compareAbilities in Hall.
  rewrite decide_True in Hall by congruence. lia.
Qed.

(** X8: the decoder does not depend on the order of its input when no two
    cells share a gear type and slot index: two arrangements of such cells
    decode to the same matrix, or both throw. *)
Theorem decode_order_independent (cells1 cells2 : list BuildAbility) :
  NoDup (cellKey <$> cells1) ->
  cells1 ≡ₚ cells2 ->
  dbAbilitiesToArrayOfArrays cells1 = dbAbilitiesToArrayOfArrays cells2.
Proof.
  intros Hnd Hperm. unfold dbAbilitiesToArrayOfArrays.
  assert (Js.sort compareAbilities cells2 = Js.sort compareAbilities cells1) as ->; [|done].
  apply sort_cells_unique.
  - by rewrite sort_Permutation.
  - apply sort_Sorted; exact _.
  - by rewrite sort_Permutation.
Qed.

(** X9: when four cells carry each gear type, whatever their slot
    indices, the rows of the decoded matrix are the abilities of the HEAD
    cells, of the CLOTHES cells and of the SHOES cells, each row in
    ascending order of slot index. *)
Theorem decode_groups_by_gear (cells : list BuildAbility) :
  length (cellsOf HEAD cells) = 4%nat ->
  length (cellsOf CLOTHES cells) = 4%nat ->
  length (cellsOf SHOES cells) = 4%nat ->
  dbAbilitiesToArrayOfArrays cells
  = Returned [ ability <$> Js.sort compareAbilities (cellsOf HEAD cells);
               ability <$> Js.sort compareAbilities (cellsOf CLOTHES cells);
               ability <$> Js.sort compareAbilities (cellsOf SHOES cells) ]
  /\ forall g, Sorted Z.le (slotIndex <$> Js.sort compareAbilities (cellsOf g cells)).
Proof.
  intros Hh Hc Hs. split; [|intros g; apply sorted_gear_slots].
  unfold dbAbilitiesToArrayOfArrays. rewrite sort_cells_by_gear.
  rewrite <- (sort_length compareAbilities) in Hh, Hc, Hs.
  destruct (Js.sort compareAbilities (cellsOf HEAD cells))
    as [|h0 [|h1 [|h2 [|h3 [|]]]]]; try done.
  destruct (Js.sort compareAbilities (cellsOf CLOTHES cells))
    as [|c0 [|c1 [|c2 [|c3 [|]]]]]; try done.
  destruct (Js.sort compareAbilities (cellsOf SHOES cells))
    as [|s0 [|s1 [|s2 [|s3 [|]]]]]; try done.
Qed.

#[global] Instance keyPrecedes_trans : Transitive keyPrecedes.
Proof. intros k1 k2 k3. unfold keyPrecedes. apply compareAbilities_trans. Qed.





(* ================================================================== *)
(** * More on the read path *)
(* ================================================================== *)

Lemma map_throwing_returns {X Y} (f : X -> Result Y) (l : list X) (ys : list Y) :
  map_throwing f l = Returned ys <-> Forall2 (fun x y => f x = Returned y) l ys.
Proof.
  revert ys. induction l as [|x l IH]; intros ys; simpl.
  - split.
    + intros [= <-]. constructor.
    + intros Hall. by apply Forall2_nil_inv_l in Hall as ->.
  - split.
    + destruct (f x) as [y|e] eqn:Hx; [|done].
      destruct (map_throwing f l) as [ys'|e] eqn:Hl; [|done].
      intros [= <-]. constructor; [done|]. by apply IH.
    + intros Hall. apply Forall2_cons_inv_l in Hall as (y & ys' & Hx & Hall & ->).
      rewrite Hx. apply IH in Hall. by rewrite Hall.
Qed.

Lemma map_throwing_first_error {X Y} (f : X -> Result Y) (pre post : list X) (x : X)
    (e : Error) :
  Forall (fun x' => is_thrown (f x') = false) pre ->
  f x = Thrown e ->
  map_throwing f (pre ++ x :: post) = Thrown e.
Proof.
  intros Hpre Hx. induction Hpre as [|x' pre Hx' _ IH]; simpl.
  - by rewrite Hx.
  - destruct (f x') as [y|e']; [|done]. by rewrite IH.
Qed.

Section ReadsMore.
Context {DB : Type} `{!Engine DB, !Catalog, !Json}.

Lemma listing_run {T} (c : Call) (stm : DB -> Result (list (Raw T))) (w : World DB) :
  ((rows ← exec_read c stm; lift (map_throwing augmentBuild rows)) w).1
  = match stm (store w) with
    | Returned rows => map_throwing augmentBuild rows
    | Thrown e => Thrown e
    end.
Proof. rewrite bind_run. unfold exec_read, lift. by destruct (stm (store w)). Qed.

Lemma buildsByUserId_run (userId : Z) (loggedInUserId : option Z) (w : World DB) :
  (buildsByUserId userId loggedInUserId w).1
  = match buildsByUserIdStm_all userId loggedInUserId (store w) with
    | Returned rows => map_throwing augmentBuild rows
    | Thrown e => Thrown e
    end.
Proof. apply (listing_run (BuildsByUserId userId loggedInUserId)). Qed.

Lemma buildsByWeaponId_run (weaponId limit : Z) (w : World DB) :
  (buildsByWeaponId weaponId limit w).1
  = match buildsByWeaponIdStm_all weaponId (default (-1) (weaponIdToAltId !! weaponId))
            limit (store w) with
    | Returned rows => map_throwing augmentBuild rows
    | Thrown e => Thrown e
    end.
Proof.
  apply (listing_run
           (BuildsByWeaponId weaponId (default (-1) (weaponIdToAltId !! weaponId)) limit)).
Qed.

(** X11: a listing returns exactly when its statement returns and every
    row it returned can be augmented; the result then holds the augmented
    rows, one for each row of the statement and in the same order (none
    when there is no row). *)
Theorem listings_augment_every_row
    (userId : Z) (loggedInUserId : option Z) (weaponId limit : Z) (w : World DB) :
  (forall bs,
     (buildsByUserId userId loggedInUserId w).1 = Returned bs
     <-> exists rows,
           buildsByUserIdStm_all userId loggedInUserId (store w) = Returned rows
           /\ Forall2 (fun r b => augmentBuild r = Returned b) rows bs)
  /\ (forall bs,
        (buildsByWeaponId weaponId limit w).1 = Returned bs
        <-> exists rows,
              buildsByWeaponIdStm_all weaponId (default (-1) (weaponIdToAltId !! weaponId))
                limit (store w) = Returned rows
              /\ Forall2 (fun r b => augmentBuild r = Returned b) rows bs).
Proof.
  split; intros bs.
  - rewrite buildsByUserId_run.
    destruct (buildsByUserIdStm_all userId loggedInUserId (store w)) as [rows|e].
    + rewrite map_throwing_returns. split; [by exists rows|]. by intros (? & [= <-] & ?).
    + split; [done|]. by intros (? & ? & _).
  - rewrite buildsByWeaponId_run.
    destruct (buildsByWeaponIdStm_all weaponId _ limit (store w)) as [rows|e].
    + rewrite map_throwing_returns. split; [by exists rows|]. by intros (? & [= <-] & ?).
    + split; [done|]. by intros (? & ? & _).
Qed.

(** X12: one row that cannot be augmented makes the whole listing throw:
    the listing throws the error of the first such row and returns no
    build at all. *)
Theorem listings_throw_first_row_error
    (userId : Z) (loggedInUserId : option Z) (weaponId limit : Z) (w : World DB) (e : Error) :
  (forall pre r post,
     buildsByUserIdStm_all userId loggedInUserId (store w) = Returned (pre ++ r :: post) ->
     Forall (fun r' => is_thrown (augmentBuild r') = false) pre ->
     augmentBuild r = Thrown e ->
     (buildsByUserId userId loggedInUserId w).1 = Thrown e)
  /\ (forall pre r post,
        buildsByWeaponIdStm_all weaponId (default (-1) (weaponIdToAltId !! weaponId))
          limit (store w) = Returned (pre ++ r :: post) ->
        Forall (fun r' => is_thrown (augmentBuild r') = false) pre ->
        augmentBuild r = Thrown e ->
        (buildsByWeaponId weaponId limit w).1 = Thrown e).
Proof.
  split; intros pre r post Hrows Hpre Hr.
  - rewrite buildsByUserId_run, Hrows.
    by apply map_throwing_first_error.
  - rewrite buildsByWeaponId_run, Hrows.
    by apply map_throwing_first_error.
Qed.

(** X13: a row whose modes and weapons can be read and whose abilities
    parse to a collection that does not have twelve cells makes
    [augmentBuild] throw the ShapeError of the decoder. *)
Theorem augmentBuild_shape_error {T} (r : Raw T)
    (parsed : list BuildWeaponWithTop500Info) (cells : list BuildAbility) :
  (forall s, rawModes r = Some s -> s ≠ "" -> is_thrown (JSON_parse_modes s) = false) ->
  JSON_parse_weapons (rawWeapons r) = Returned parsed ->
  JSON_parse_abilities (rawAbilities r) = Returned cells ->
  length cells ≠ 12%nat ->
  augmentBuild r = Thrown ShapeError.
Proof.
  intros Hmodes Hw Ha Hlen.
  assert (forall modes : option (list ModeShort),
            (parsed ← JSON_parse_weapons (rawWeapons r);
             let weapons := Js.sort (fun a b => weaponSplId a - weaponSplId b) parsed in
             abilities ← JSON_parse_abilities (rawAbilities r);
             abilities ← dbAbilitiesToArrayOfArrays abilities;
             mret {| Augmented.row := row r; Augmented.modes := modes;
                     Augmented.weapons := weapons; Augmented.abilities := abilities |})
            = Thrown ShapeError) as Hrest.
  { intros modes. rewrite Hw. simpl. rewrite Ha. simpl.
    by rewrite (decode_throws cells Hlen). }
  unfold augmentBuild.
  destruct (rawModes r) as [s|] eqn:Hs; [|apply Hrest].
  case_bool_decide as Hempty; [apply Hrest|].
  specialize (Hmodes s eq_refl Hempty).
  destruct (JSON_parse_modes s) as [modes|e]; [apply Hrest|done].
Qed.

Lemma augmentBuild_inv {T} (r : Raw T) (b : Augmented.t T) :
  augmentBuild r = Returned b ->
  exists modes parsed cells m,
    match rawModes r with
    | Some rawModes =>
        if bool_decide (rawModes = "") then mret None
        else Some <$> JSON_parse_modes rawModes
    | None => mret None
    end = Returned modes
    /\ JSON_parse_weapons (rawWeapons r) = Returned parsed
    /\ JSON_parse_abilities (rawAbilities r) = Returned cells
    /\ dbAbilitiesToArrayOfArrays cells = Returned m
    /\ b = {| Augmented.row := row r;
              Augmented.modes := modes;
              Augmented.weapons := Js.sort (fun a b => weaponSplId a - weaponSplId b) parsed;
              Augmented.abilities := m |}.
Proof.
  unfold augmentBuild.
  destruct (match rawModes r with
            | Some rawModes =>
                if bool_decide (rawModes = "") then mret None
                else Some <$> JSON_parse_modes rawModes
            | None => mret None
            end) as [modes|e]; [|done].
  destruct (JSON_parse_weapons (rawWeapons r)) as [parsed|e]; [|done].
  destruct (JSON_parse_abilities (rawAbilities r)) as [cells|e]; [|done].
  simpl. destruct (dbAbilitiesToArrayOfArrays cells) as [m|e] eqn:Hm; [|done].
  simpl. intros [= <-]. exists modes, parsed, cells, m. repeat split. exact Hm.
Qed.

(** X14: what [augmentBuild] returns: the columns it was not asked to
    decode as they were; the parsed weapons, none lost and none added; a
    matrix of three rows of four; and [null] for the modes when the modes
    column is [null] or the empty string, which is not handed to the
    parser. *)
Theorem augmentBuild_returns {T} (r : Raw T) (b : Augmented.t T) :
  augmentBuild r = Returned b ->
  Augmented.row b = row r
  /\ (exists parsed,
        JSON_parse_weapons (rawWeapons r) = Returned parsed
        /\ Augmented.weapons b ≡ₚ parsed)
  /\ is3x4 (Augmented.abilities b) = true
  /\ (rawModes r = None \/ rawModes r = Some "" -> Augmented.modes b = None).
Proof.
  intros Hb.
  destruct (augmentBuild_inv r b Hb) as (modes & parsed & cells & m & Hmodes & Hw & Ha & Hm & ->).
  simpl. split; [done|]. split; [|split].
  - exists parsed. split; [done|]. apply sort_Permutation.
  - destruct (decide (length cells = 12%nat)) as [Hlen|Hlen].
    + destruct (decode_returns_matrix cells Hlen) as (m' & Hm' & ?). congruence.
    + rewrite (decode_throws cells Hlen) in Hm. done.
  - intros [Hnull|Hempty].
    + rewrite Hnull in Hmodes. by injection Hmodes as <-.
    + rewrite Hempty in Hmodes. simpl in Hmodes. by injection Hmodes as <-.
Qed.

(** X15: the modes written by [create] as read back by [augmentBuild],
    for a JSON reader that reads what the printer prints for the sorted
    list: no list and the empty list both come back as [null]; a list with
    elements comes back sorted by position in the global table. *)
Theorem modes_write_then_read {T} (modes : option (list ModeShort)) (r : Raw T)
    (b : Augmented.t T) :
  rawModes r = create_modes modes ->
  augmentBuild r = Returned b ->
  (modes = None \/ modes = Some [] -> Augmented.modes b = None)
  /\ (forall l,
        let sorted := Js.sort (fun a b => Js.indexOf modesShort a - Js.indexOf modesShort b) l in
        modes = Some l -> l ≠ [] ->
        JSON_stringify sorted ≠ "" ->
        JSON_parse_modes (JSON_stringify sorted) = Returned sorted ->
        Augmented.modes b = Some sorted).
Proof.
  intros Hraw Hb.
  destruct (augmentBuild_inv r b Hb) as (ms & parsed & cells & m & Hmodes & _ & _ & _ & ->).
  simpl. rewrite Hraw in Hmodes. split.
  - intros [->| ->]; simpl in Hmodes; by injection Hmodes as <-.
  - intros l -> Hne Hprint Hread. unfold create_modes in Hmodes.
    rewrite bool_decide_eq_true_2 in Hmodes by (destruct l; [done | simpl; lia]).
    rewrite bool_decide_eq_false_2 in Hmodes by done.
    rewrite Hread in Hmodes. simpl in Hmodes. by injection Hmodes as <-.
Qed.

(** X16: for a weapon with an alternate identifier in the table, the
    listing by weapon executes one statement, outside any unit of work,
    with the weapon, its alternate and the limit bound to it. *)
Theorem buildsByWeaponId_binds_alternate (weaponId altWeaponId limit : Z) (w : World DB) :
  weaponIdToAltId !! weaponId = Some altWeaponId ->
  weaponQueries (events_of (buildsByWeaponId weaponId limit) w)
  = [(weaponId, altWeaponId, limit)]
  /\ length (events_of (buildsByWeaponId weaponId limit) w) = 1%nat
  /\ max_open 0 (events_of (buildsByWeaponId weaponId limit) w) = 0%nat.
Proof.
  intros Halt. split; [by rewrite buildsByWeaponId_query, Halt|].
  unfold buildsByWeaponId. rewrite Halt. simpl.
  rewrite (events_of_app _ w [Exec (BuildsByWeaponId weaponId altWeaponId limit)
             (negb (is_thrown (buildsByWeaponIdStm_all weaponId altWeaponId limit (store w))))]);
    [done|].
  rewrite bind_run. unfold exec_read, lift.
  by destruct (buildsByWeaponIdStm_all weaponId altWeaponId limit (store w)).
Qed.

End ReadsMore.


(* ================================================================== *)
(** * More properties at work on the in-memory engine *)
(* ================================================================== *)

Lemma create_writes_weapons_in_order_witness :
  exists createdBuild db,
    Mem.createBuild Mem.accepting (@createBuildParams exampleCatalog miniJson raggedBuild)
      (store startWorld) = (Returned createdBuild, db)
    /\ weaponCalls (events_of (@create Mem.DB (Mem.engine Mem.accepting) exampleCatalog miniJson
                                 raggedBuild) startWorld)
       = pair (Build.id createdBuild) <$> [40; 40; 10].
Proof.
  apply (@create_writes_weapons_in_order Mem.DB (Mem.engine Mem.accepting) exampleCatalog
           miniJson raggedBuild startWorld).
  reflexivity.
Defined.

Lemma create_writes_every_ability_witness :
  exists id,
    abilityCalls (events_of (@create Mem.DB (Mem.engine Mem.accepting) exampleCatalog miniJson
                               raggedBuild) startWorld)
    = pair id <$> abilityRows (CreateArgs.abilities raggedBuild)
    /\ (ability ∘ snd) <$> abilityCalls
         (events_of (@create Mem.DB (Mem.engine Mem.accepting) exampleCatalog miniJson
                       raggedBuild) startWorld)
       = ["ISM"; "SSU"; "SCU"; "QR"; "RES"; "BRU"].
Proof.
  apply (@create_writes_every_ability Mem.DB (Mem.engine Mem.accepting) exampleCatalog
           miniJson raggedBuild startWorld).
  reflexivity.
Defined.

Lemma create_build_insert_fails_witness :
  (@create Mem.DB (Mem.engine rejectBuild) exampleCatalog miniJson exampleBuild storedWorld).1
  = Thrown (StorageFailure "constraint failed")
  /\ store (@create Mem.DB (Mem.engine rejectBuild) exampleCatalog miniJson exampleBuild
              storedWorld).2 = store storedWorld.
Proof.
  destruct (@create_build_insert_fails Mem.DB (Mem.engine rejectBuild) exampleCatalog miniJson
              exampleBuild storedWorld (StorageFailure "constraint failed") eq_refl)
    as (Hr & _ & Hs).
  split; [exact Hr | exact Hs].
Defined.

Lemma updateByReplacing_delete_fails_witness :
  (@updateByReplacing Mem.DB (Mem.engine rejectDelete) exampleCatalog miniJson
     1 exampleBuild storedWorld).1 = Thrown (StorageFailure "constraint failed")
  /\ events_of (@updateByReplacing Mem.DB (Mem.engine rejectDelete) exampleCatalog miniJson
                  1 exampleBuild) storedWorld
     = [TxBegin; Exec (DeleteById 1) false; TxRollback].
Proof.
  destruct (@updateByReplacing_delete_fails Mem.DB (Mem.engine rejectDelete) exampleCatalog
              miniJson 1 exampleBuild storedWorld (StorageFailure "constraint failed") eq_refl)
    as (Hr & Hev & _).
  split; [exact Hr | exact Hev].
Defined.


(** The replaced build comes back under a new id: the old id is bound to
    the delete and to nothing else. *)
Example replace_hands_out_new_id :
  weaponCalls (events_of (@updateByReplacing Mem.DB (Mem.engine Mem.accepting) exampleCatalog
                            miniJson 1 exampleBuild) storedWorld)
  = [(2, 1200); (2, 40)].
Proof. by vm_compute. Qed.

Lemma decode_order_independent_witness :
  dbAbilitiesToArrayOfArrays (abilityRows exampleAbilities)
  = dbAbilitiesToArrayOfArrays (reverse (abilityRows exampleAbilities)).
Proof.
  apply (decode_order_independent (abilityRows exampleAbilities)
           (reverse (abilityRows exampleAbilities))).
  - compute_done.
  - symmetry. apply reverse_Permutation.
Defined.

Lemma decode_groups_by_gear_witness :
  dbAbilitiesToArrayOfArrays scatteredCells
  = Returned [ ability <$> Js.sort compareAbilities (cellsOf HEAD scatteredCells);
               ability <$> Js.sort compareAbilities (cellsOf CLOTHES scatteredCells);
               ability <$> Js.sort compareAbilities (cellsOf SHOES scatteredCells) ].
Proof.
  apply (decode_groups_by_gear scatteredCells); reflexivity.
Defined.


Lemma listings_throw_first_row_error_witness :
  (@buildsByUserId Mem.DB (Mem.engine Mem.accepting) miniJson 7 None raggedWorld).1
  = Thrown ShapeError.
Proof.
  eapply (proj1 (@listings_throw_first_row_error Mem.DB (Mem.engine Mem.accepting)
                   exampleCatalog miniJson 7 None 40 5 raggedWorld ShapeError) [] _ []).
  - vm_compute. reflexivity.
  - constructor.
  - by vm_compute.
Defined.

Lemma augmentBuild_shape_error_witness :
  @augmentBuild miniJson unit emptyRow = Thrown ShapeError.
Proof.
  apply (@augmentBuild_shape_error miniJson unit emptyRow [] []).
  - intros s Hs. discriminate Hs.
  - by vm_compute.
  - by vm_compute.
  - simpl. lia.
Defined.

Lemma augmentBuild_returns_witness :
  exists r b,
    storedRow = Some r
    /\ @augmentBuild miniJson _ r = Returned b
    /\ Augmented.row b = row r
    /\ is3x4 (Augmented.abilities b) = true.
Proof.
  eexists _, _. split; [by vm_compute|].
  assert (forall P Q : Prop, P -> (P -> Q) -> P /\ Q) as Hcut by tauto.
  apply Hcut; [by vm_compute|]. intros Hb.
  destruct (@augmentBuild_returns miniJson _ _ _ Hb) as (Hrow & _ & H34 & _).
  split; [exact Hrow | exact H34].
Defined.

Lemma modes_write_then_read_witness :
  exists r b,
    storedRow = Some r
    /\ @augmentBuild miniJson _ r = Returned b
    /\ Augmented.modes b = Some ["SZ"; "TC"].
Proof.
  eexists _, _. split; [by vm_compute|].
  assert (forall P Q : Prop, P -> (P -> Q) -> P /\ Q) as Hcut by tauto.
  apply Hcut; [by vm_compute|]. intros Hb.
  match type of Hb with
  | augmentBuild ?r = _ =>
      assert (rawModes r = @create_modes exampleCatalog miniJson (Some ["TC"; "SZ"])) as Hraw
        by (by vm_compute)
  end.
  destruct (@modes_write_then_read exampleCatalog miniJson _ (Some ["TC"; "SZ"]) _ _
              Hraw Hb) as [_ Hsome].
  apply (Hsome ["TC"; "SZ"]); [done | done | by vm_compute | by vm_compute].
Defined.

Lemma buildsByWeaponId_binds_alternate_witness :
  weaponQueries
    (events_of (@buildsByWeaponId Mem.DB (Mem.engine Mem.accepting) exampleCatalog miniJson 40 5)
       storedWorld)
  = [(40, 45, 5)].
Proof.
  apply (@buildsByWeaponId_binds_alternate Mem.DB (Mem.engine Mem.accepting) exampleCatalog
           miniJson 40 45 5 storedWorld).
  reflexivity.
Defined.

Lemma listings_augment_every_row_witness :
  exists bs rows,
    (@buildsByUserId Mem.DB (Mem.engine Mem.accepting) miniJson 7 None storedWorld).1
    = Returned bs
    /\ Mem.buildsByUserId Mem.accepting 7 None (store storedWorld) = Returned rows
    /\ Forall2 (fun r b => @augmentBuild miniJson _ r = Returned b) rows bs
    /\ length bs = 1%nat.
Proof.
  eexists.
  assert (forall (P : Prop) (Q : Prop), P -> (P -> Q) -> Q) as Hcut by tauto.
  eapply (Hcut (_ = Returned _)); [by vm_compute|]. intros Hbs.
  destruct (proj1 (proj1 (@listings_augment_every_row Mem.DB (Mem.engine Mem.accepting)
                            exampleCatalog miniJson 7 None 40 5 storedWorld) _) Hbs)
    as (rows & Hrows & Hall).
  exists rows. split; [exact Hbs|]. split; [exact Hrows|]. split; [exact Hall|]. reflexivity.
Defined.

(* ================================================================== *)
(** * The modes bound by [create] *)
(* ================================================================== *)







Section BoundModes.
Context {DB : Type} `{!Engine DB, !Catalog, !Json}.



End BoundModes.


(** What [create] binds for the two example builds. *)
Example create_binds_sorted_modes :
  modesBound (events_of (@create Mem.DB (Mem.engine Mem.accepting) exampleCatalog miniJson
                           exampleBuild) startWorld)
  = [Some (@JSON_stringify miniJson ["SZ"; "TC"])].
Proof. by vm_compute. Qed.

(* ================================================================== *)
(** * When the sentinel adds a match *)
(* ================================================================== *)



Section SentinelMatches.
Context `{!Catalog, !Json}.


End SentinelMatches.


